(** * SpineAnimationView: playback controller and presenter

    A shallow embedding of [src/SpineAnimationView.js]: the view that
    drives a spine skeleton (start / stop / reset / pause / resume,
    the completion and event handlers it registers on the engine's
    animation state) and that, on every tick, lays the skeleton's
    region attachments out on a pool of image sprites.

    Conventions of the embedding.
    - A JavaScript number is an exact rational ([Q]); rounding of IEEE
      doubles is not modelled in times and geometry.  A number that is
      not finite (division by a zero or missing frame rate) is [None] in
      an [option Q].  An iteration count is an integer, and counting it
      down rounds as a double does ([js_decrement]); a z-index is a
      natural number.
    - A property that may be missing from an options object is an
      [option]; [js_or] is JavaScript's [a || b] on such a property.
    - Exceptions are explicit: an operation runs in the monad [M], which
      threads the view and either returns or throws, keeping the view as
      it was when the exception left the method.
    - Callbacks handed in by the caller are opaque handles; invoking one
      is recorded in the view's [fired] log.  A callback that calls back
      into the view is outside the model.
    - The spine runtime is not part of this file's source.  What the view
      needs of it is the interface [Engine]; the animation state is the
      record of the calls the view made on it.  The engine calls the
      handlers the view stored in the state from within [state.apply];
      which ones it calls is the engine's business ([applyCallbacks]). *)

From Stdlib Require Import ZArith QArith Lia Lqa.
From stdpp Require Import base option list strings.

Local Open Scope Q_scope.
Local Open Scope string_scope.

(** ** JavaScript truthiness *)

Class Truthy (A : Type) := truthy : A -> bool.

#[global] Instance truthy_bool : Truthy bool := fun b => b.
#[global] Instance truthy_Z : Truthy Z := fun z => negb (z =? 0)%Z.
#[global] Instance truthy_Q : Truthy Q := fun q => negb (Qeq_bool q 0).
#[global] Instance truthy_string : Truthy string :=
  fun s => match s with EmptyString => false | String _ _ => true end.

(** [p || d] where [p] is a property read off an options object. *)
Definition js_or {A : Type} `{Truthy A} (p : option A) (d : A) : A :=
  match p with
  | Some a => if truthy a then a else d
  | None => d
  end.

(** The condition [if (p)] on such a property. *)
Definition js_truthy {A : Type} `{Truthy A} (p : option A) : bool :=
  match p with
  | Some a => truthy a
  | None => false
  end.

(** [a / b] where [b] may be undefined or zero: not a finite number then. *)
Definition js_div (a : Q) (b : option Q) : option Q :=
  match b with
  | Some q => if Qeq_bool q 0 then None else Some (a / q)
  | None => None
  end.

(** [a * b] where [b] may already be not finite. *)
Definition js_mul (a : Q) (b : option Q) : option Q :=
  match b with
  | Some q => Some (a * q)
  | None => None
  end.

(** [Math.PI], the double nearest to pi, as the rational it is. *)
Definition Math_PI : Q := 884279719003555 # 281474976710656.

(** The double nearest to an integer, ties to the even significand of 53
    bits; integers up to 2^53 in size are doubles themselves. *)
Definition round_double (m : Z) : Z :=
  let a := Z.abs m in
  if (a <? 2 ^ 53)%Z then m
  else
    let ulp := (2 ^ (Z.log2 a - 52))%Z in
    let q := (a / ulp)%Z in
    let r := (a mod ulp)%Z in
    let q' := if (2 * r <? ulp)%Z then q
              else if (ulp <? 2 * r)%Z then (q + 1)%Z
              else if Z.even q then q else (q + 1)%Z in
    (Z.sgn m * (q' * ulp))%Z.

(** [--n] on a number that holds an integer. *)
Definition js_decrement (n : Z) : Z := round_double (n - 1).

(** ** Data of the skeleton engine read by the view *)

Module Bone.
Record t : Type := mk {
    worldX : Q;
    worldY : Q;
    worldRotation : Q;
    worldScaleX : Q;
    worldScaleY : Q;
    m00 : Q;
    m01 : Q;
    m10 : Q;
    m11 : Q
}.
End Bone.

Module RegionAttachment.
Record t : Type := mk {
    name : string;
    (** index of the image in the view's [rendererObjects] *)
    rendererObject : nat;
    x : Q;
    y : Q;
    rotation : Q;
    width : Q;
    height : Q
}.
End RegionAttachment.

Inductive Attachment : Type :=
| Region (a : RegionAttachment.t)
| BoundingBox (name : string).

(** An entry of [skeleton.drawOrder]: a slot with the bone that owns it
    and the attachment it shows now, if any. *)
Record Slot : Type := {
  bone : nat;
  attachment : option Attachment
}.

Record Skeleton (P : Type) : Type := {
  pose : P;
  drawOrder : list Slot
}.
Arguments pose {P} _.
Arguments drawOrder {P} _.

Record Animation : Type := {
  anim_name : string;
  duration : Q
}.

Record SkeletonData : Type := {
  animations : list Animation;
  attachments : list Attachment
}.

(** Modelled from the spec: [skeletonData.findAnimation] of the spine
    runtime, which is not under src/; it looks an animation up by name
    and yields null when there is none. *)
Fixpoint findAnimation (name : string) (l : list Animation) : option Animation :=
  match l with
  | [] => None
  | a :: rest => if String.eqb (anim_name a) name then Some a else findAnimation name rest
  end.

(** What the reader reports for each attachment of the source data. *)
Inductive AttachmentSpec : Type :=
| RegionSpec (name path : string) (x y rotation width height : Q)
| BoundingBoxSpec (name : string).

Inductive ParseResult (J : Type) : Type :=
| ParseThrows
| ParsedFalsy
| Parsed (j : J).
Arguments ParseThrows {J}.
Arguments ParsedFalsy {J}.
Arguments Parsed {J} _.

(** ** The animation state, as the view sees it *)

Inductive EngineCall : Type :=
| SetAnimationByName (track : nat) (name : string) (loop : bool)
| Update (delta : option Q)
| Apply.

Record AnimationState : Type := {
  (** the skeleton data the state was created over *)
  st_data : SkeletonData;
  (** [state.data.defaultMix] *)
  defaultMix : Q;
  (** the calls made on the state since it was created, oldest first *)
  calls : list EngineCall;
  (** whether [state.onComplete] and [state.onEvent] have been set *)
  handlers : bool
}.

Definition record_call (c : EngineCall) (st : AnimationState) : AnimationState :=
  {| st_data := st_data st; defaultMix := defaultMix st;
     calls := calls st ++ [c]; handlers := handlers st |}.

Definition set_defaultMix (q : Q) (st : AnimationState) : AnimationState :=
  {| st_data := st_data st; defaultMix := q;
     calls := calls st; handlers := handlers st |}.

Definition set_handlers (st : AnimationState) : AnimationState :=
  {| st_data := st_data st; defaultMix := defaultMix st;
     calls := calls st; handlers := true |}.

(** The animation on track 0 and its loop flag: the last one set. *)
Fixpoint armed_in (l : list EngineCall) (acc : option (string * bool)) : option (string * bool) :=
  match l with
  | [] => acc
  | SetAnimationByName _ n b :: rest => armed_in rest (Some (n, b))
  | _ :: rest => armed_in rest acc
  end.

Definition armed (st : AnimationState) : option (string * bool) :=
  armed_in (calls st) None.

(** Total of the finite deltas passed to [state.update]. *)
Fixpoint engineTime_of (l : list EngineCall) : Q :=
  match l with
  | [] => 0
  | Update (Some d) :: rest => d + engineTime_of rest
  | _ :: rest => engineTime_of rest
  end.

Definition engineTime (st : AnimationState) : Q := engineTime_of (calls st).

(** What an event of an animation carries; opaque to the view. *)
Definition EventData : Type := nat.

(** A call the engine makes on a handler stored in the animation state:
    [state.onComplete(track, loopCount)] or [state.onEvent(track, event)]. *)
Inductive HandlerCall : Type :=
| OnComplete (track loopCount : nat)
| OnEvent (track : nat) (data : EventData).

(** ** The interface of the runtime

    Modelled from the spec: the spine runtime and the host's [JSON.parse]
    and resource [CACHE] are collaborators outside src/ (spec section 6). *)
Class Engine : Type := {
  (** a parsed source document that the reader accepts *)
  SpineJson : Type;
  (** bone hierarchy and local transforms of a skeleton instance *)
  Pose : Type;
  JSON_parse : string -> ParseResult SpineJson;
  CACHE : string -> option string;
  (** [json.readSkeletonData]: the animations found, and the attachments
      in the order the reader asks the factory for them, with their
      geometry under [json.scale] *)
  readAnimations : SpineJson -> list Animation;
  readAttachments : option Q -> SpineJson -> list AttachmentSpec;
  (** [new spine.Skeleton(skeletonData)] *)
  newSkeleton : SkeletonData -> Skeleton Pose;
  (** [state.apply(skeleton)]: the skeleton it leaves, *)
  applyState : AnimationState -> Skeleton Pose -> Skeleton Pose;
  (** and the calls it makes, in order, on the handlers stored in the
      state: the events the track passed, and its completion *)
  applyCallbacks : AnimationState -> list HandlerCall;
  (** [skeleton.updateWorldTransform()] touches the bones only *)
  updateWorldTransform : Pose -> Pose;
  (** the world transform of a bone in a pose *)
  worldBone : Pose -> nat -> Bone.t
}.

(** ** Sprites *)

Module Style.
Record t : Type := mk {
    visible : bool;
    anchorX : Q;
    anchorY : Q;
    width : Q;
    height : Q;
    x : Q;
    y : Q;
    r : Q;
    zIndex : nat
}.

Definition hide (s : t) : t :=
    mk false (anchorX s) (anchorY s) (width s) (height s) (x s) (y s) (r s) (zIndex s).
End Style.

Record ImageView : Type := {
  image : string;
  style : Style.t
}.

Definition with_style (f : Style.t -> Style.t) (img : ImageView) : ImageView :=
  {| image := image img; style := f (style img) |}.

(** [new ImageView({superview: self, autoSize: true, visible: false, image: ...})] *)
Definition new_ImageView (img : string) : ImageView :=
  {| image := img; style := Style.mk false 0 0 0 0 0 0 0 0 |}.

(** Modelled from the spec: the reader of the spine runtime (not under
    src/) calls the factory once for every attachment it meets.  The two
    factory callbacks are the source's: [newRegionAttachment] creates a
    hidden image, makes it the attachment's [rendererObject] and pushes it
    on [rendererObjects]; [newBoundingBoxAttachment] creates no image. *)
Fixpoint readSkeletonAttachments (imagePath : string) (specs : list AttachmentSpec)
    (pool : list ImageView) : list Attachment * list ImageView :=
  match specs with
  | [] => ([], pool)
  | RegionSpec n path ax ay arot aw ah :: rest =>
      let img := new_ImageView (imagePath ++ path ++ ".png") in
      let att := Region (RegionAttachment.mk n (length pool) ax ay arot aw ah) in
      let '(atts, pool') := readSkeletonAttachments imagePath rest (pool ++ [img]) in
      (att :: atts, pool')
  | BoundingBoxSpec n :: rest =>
      let '(atts, pool') := readSkeletonAttachments imagePath rest pool in
      (BoundingBox n :: atts, pool')
  end.

(** ** Options, requests and the view *)

Definition Callback : Type := nat.

(** The [opts] argument of [startAnimation]. *)
Module StartOpts.
Record t : Type := mk {
  iterations : option Z;
  callback : option Callback;
  eventCallback : option Callback;
  loop : option bool
}.
End StartOpts.

(** The object kept in [_currentAnimationOpts]. *)
Module Request.
Record t : Type := mk {
  iterations : Z;
  callback : option Callback;
  eventCallback : option Callback;
  loop : bool;
  animationName : string
}.
End Request.

(** A callback the view has called, with the event data if it was an
    event callback. *)
Inductive Invocation : Type :=
| Completed (cb : Callback)
| Event (cb : Callback) (data : EventData).

Inductive Exn : Type :=
| AnimationNotFound (name : string)
| TypeError
| SyntaxError.

Section View.
Context {E : Engine}.

#[global] Instance truthy_SpineJson : Truthy SpineJson := fun _ => true.

(** The options of the view: those given to the constructor, and those
    given to [resetAllAnimations]. *)
Record Opts : Type := {
  spineData : option SpineJson;
  jsonText : option string;
  jsonFile : option string;
  imagePath : option string;
  animationScale : option Q;
  defaultAnimation : option string;
  defaultMix_opt : option Q;
  frameRate_opt : option Q;
  loop : option bool;
  autoStart : option bool
}.

Definition no_opts : Opts :=
  {| spineData := None; jsonText := None; jsonFile := None; imagePath := None;
     animationScale := None; defaultAnimation := None; defaultMix_opt := None;
     frameRate_opt := None; loop := None; autoStart := None |}.

Definition own {A : Type} (a b : option A) : option A :=
  match a with
  | Some _ => a
  | None => b
  end.

(** Modelled from the spec: the framework's [merge(base, extra)], not
    under src/; a property of [extra] is copied to [base] when [base] has
    none of that name, so the first argument overrides the second. *)
Definition merge (base extra : Opts) : Opts :=
  {| spineData := own (spineData base) (spineData extra);
     jsonText := own (jsonText base) (jsonText extra);
     jsonFile := own (jsonFile base) (jsonFile extra);
     imagePath := own (imagePath base) (imagePath extra);
     animationScale := own (animationScale base) (animationScale extra);
     defaultAnimation := own (defaultAnimation base) (defaultAnimation extra);
     defaultMix_opt := own (defaultMix_opt base) (defaultMix_opt extra);
     frameRate_opt := own (frameRate_opt base) (frameRate_opt extra);
     loop := own (loop base) (loop extra);
     autoStart := own (autoStart base) (autoStart extra) |}.

Record View : Type := {
  (** the options stored by the superclass constructor *)
  _opts : Opts;
  (** [this.style.visible] *)
  visible : bool;
  _isPlaying : bool;
  _isOnDefault : bool;
  _currentAnimationOpts : option Request.t;
  frameRate : option Q;
  rendererObjects : list ImageView;
  skeletonData : option SkeletonData;
  skeleton : option (Skeleton Pose);
  state : option AnimationState;
  (** the caller's callbacks invoked so far, oldest first *)
  fired : list Invocation
}.

Definition set_visible (b : bool) (v : View) : View :=
  {| _opts := _opts v; visible := b; _isPlaying := _isPlaying v;
     _isOnDefault := _isOnDefault v; _currentAnimationOpts := _currentAnimationOpts v;
     frameRate := frameRate v; rendererObjects := rendererObjects v;
     skeletonData := skeletonData v; skeleton := skeleton v; state := state v;
     fired := fired v |}.

Definition set_isPlaying (b : bool) (v : View) : View :=
  {| _opts := _opts v; visible := visible v; _isPlaying := b;
     _isOnDefault := _isOnDefault v; _currentAnimationOpts := _currentAnimationOpts v;
     frameRate := frameRate v; rendererObjects := rendererObjects v;
     skeletonData := skeletonData v; skeleton := skeleton v; state := state v;
     fired := fired v |}.

Definition set_isOnDefault (b : bool) (v : View) : View :=
  {| _opts := _opts v; visible := visible v; _isPlaying := _isPlaying v;
     _isOnDefault := b; _currentAnimationOpts := _currentAnimationOpts v;
     frameRate := frameRate v; rendererObjects := rendererObjects v;
     skeletonData := skeletonData v; skeleton := skeleton v; state := state v;
     fired := fired v |}.

Definition set_currentAnimationOpts (r : option Request.t) (v : View) : View :=
  {| _opts := _opts v; visible := visible v; _isPlaying := _isPlaying v;
     _isOnDefault := _isOnDefault v; _currentAnimationOpts := r;
     frameRate := frameRate v; rendererObjects := rendererObjects v;
     skeletonData := skeletonData v; skeleton := skeleton v; state := state v;
     fired := fired v |}.

Definition set_frameRate (q : option Q) (v : View) : View :=
  {| _opts := _opts v; visible := visible v; _isPlaying := _isPlaying v;
     _isOnDefault := _isOnDefault v; _currentAnimationOpts := _currentAnimationOpts v;
     frameRate := q; rendererObjects := rendererObjects v;
     skeletonData := skeletonData v; skeleton := skeleton v; state := state v;
     fired := fired v |}.

Definition set_rendererObjects (l : list ImageView) (v : View) : View :=
  {| _opts := _opts v; visible := visible v; _isPlaying := _isPlaying v;
     _isOnDefault := _isOnDefault v; _currentAnimationOpts := _currentAnimationOpts v;
     frameRate := frameRate v; rendererObjects := l;
     skeletonData := skeletonData v; skeleton := skeleton v; state := state v;
     fired := fired v |}.

Definition set_skeletonData (d : option SkeletonData) (v : View) : View :=
  {| _opts := _opts v; visible := visible v; _isPlaying := _isPlaying v;
     _isOnDefault := _isOnDefault v; _currentAnimationOpts := _currentAnimationOpts v;
     frameRate := frameRate v; rendererObjects := rendererObjects v;
     skeletonData := d; skeleton := skeleton v; state := state v;
     fired := fired v |}.

Definition set_skeleton (s : option (Skeleton Pose)) (v : View) : View :=
  {| _opts := _opts v; visible := visible v; _isPlaying := _isPlaying v;
     _isOnDefault := _isOnDefault v; _currentAnimationOpts := _currentAnimationOpts v;
     frameRate := frameRate v; rendererObjects := rendererObjects v;
     skeletonData := skeletonData v; skeleton := s; state := state v;
     fired := fired v |}.

Definition set_state (s : option AnimationState) (v : View) : View :=
  {| _opts := _opts v; visible := visible v; _isPlaying := _isPlaying v;
     _isOnDefault := _isOnDefault v; _currentAnimationOpts := _currentAnimationOpts v;
     frameRate := frameRate v; rendererObjects := rendererObjects v;
     skeletonData := skeletonData v; skeleton := skeleton v; state := s;
     fired := fired v |}.

Definition set_fired (l : list Invocation) (v : View) : View :=
  {| _opts := _opts v; visible := visible v; _isPlaying := _isPlaying v;
     _isOnDefault := _isOnDefault v; _currentAnimationOpts := _currentAnimationOpts v;
     frameRate := frameRate v; rendererObjects := rendererObjects v;
     skeletonData := skeletonData v; skeleton := skeleton v; state := state v;
     fired := l |}.

(** ** The monad of a method call: the view threaded, or an exception *)

Inductive Outcome (A : Type) : Type :=
| Return (a : A) (v : View)
| Throw (e : Exn) (v : View).
Arguments Return {A} _ _.
Arguments Throw {A} _ _.

Definition M (A : Type) : Type := View -> Outcome A.

Definition ret {A : Type} (a : A) : M A := fun v => Return a v.

Definition bind {A B : Type} (m : M A) (k : A -> M B) : M B :=
  fun v => match m v with
           | Return a v' => k a v'
           | Throw e v' => Throw e v'
           end.

Definition throw {A : Type} (e : Exn) : M A := fun v => Throw e v.
Definition get : M View := fun v => Return v v.
Definition modify (f : View -> View) : M unit := fun v => Return tt (f v).

(** The view an outcome leaves behind, returned or thrown. *)
Definition view_of {A : Type} (o : Outcome A) : View :=
  match o with
  | Return _ v => v
  | Throw _ v => v
  end.

Definition returned {A : Type} (o : Outcome A) : bool :=
  match o with
  | Return _ _ => true
  | Throw _ _ => false
  end.

End View.

Arguments Return {E A} _ _.
Arguments Throw {E A} _ _.

Notation "'let*' x := c 'in' k" := (bind c (fun x => k))
  (at level 10, x name, c at level 100, k at level 200, only parsing).
Notation "c >> k" := (bind c (fun _ => k))
  (at level 60, right associativity, only parsing).

(** ** The methods of the view *)

Section Methods.
Context {E : Engine}.

(** [this.state.setAnimationByName(track, name, loop)].
    Modelled from the spec: the engine fails with AnimationNotFound when
    the skeleton data has no animation of that name; reading [this.state]
    before any state was created is a TypeError. *)
Definition setAnimationByName (track : nat) (name : string) (loop : bool) : M unit :=
  fun v =>
    match state v with
    | None => Throw TypeError v
    | Some st =>
        match findAnimation name (animations (st_data st)) with
        | None => Throw (AnimationNotFound name) v
        | Some _ =>
            Return tt (set_state (Some (record_call (SetAnimationByName track name loop) st)) v)
        end
    end.

(** [this.state.update(delta)] *)
Definition state_update (delta : option Q) : M unit :=
  fun v =>
    match state v with
    | None => Throw TypeError v
    | Some st => Return tt (set_state (Some (record_call (Update delta) st)) v)
    end.

(** [cb()] and [cb(data)] for a callback of the caller. *)
Definition invoke (i : Invocation) : M unit :=
  modify (fun v => set_fired (fired v ++ [i]) v).

Definition startAnimation (name : string) (opts : option StartOpts.t) : M unit :=
  let loop := match opts with
              | Some o => js_or (StartOpts.loop o) false
              | None => false
              end in
  setAnimationByName 0 name loop >>
  modify (set_visible true) >>
  modify (set_isPlaying true) >>
  modify (set_isOnDefault false) >>
  match opts with
  | Some o =>
      modify (set_currentAnimationOpts (Some
        {| Request.iterations := js_or (StartOpts.iterations o) 1%Z;
           Request.callback := StartOpts.callback o;
           Request.eventCallback := StartOpts.eventCallback o;
           Request.loop := loop;
           Request.animationName := name |}))
  | None =>
      modify (set_currentAnimationOpts (Some
        {| Request.iterations := 1%Z;
           Request.callback := None;
           Request.eventCallback := None;
           Request.loop := false;
           Request.animationName := name |}))
  end.

Definition stopAnimation : M unit :=
  modify (set_isOnDefault true) >>
  modify (set_visible false) >>
  modify (set_isPlaying false) >>
  modify (set_currentAnimationOpts None).

Definition resetAnimation : M unit :=
  let* v := get in
  if js_truthy (defaultAnimation (_opts v)) then
    setAnimationByName 0 (default EmptyString (defaultAnimation (_opts v)))
                       (js_or (loop (_opts v)) true) >>
    modify (set_visible true) >>
    modify (set_isPlaying true) >>
    modify (set_isOnDefault true) >>
    modify (set_currentAnimationOpts None)
  else
    stopAnimation.

Definition setFramerate (fps : option Q) : M unit :=
  modify (set_frameRate (Some (js_or fps 30))).

Definition pause : M unit := modify (set_isPlaying false).

Definition resume : M unit := modify (set_isPlaying true).

(** [new spine.AnimationState(new spine.AnimationStateData(this.skeletonData))] *)
Definition createState : M AnimationState :=
  let* v := get in
  match skeletonData v with
  | Some d => ret {| st_data := d; defaultMix := 0; calls := []; handlers := false |}
  | None => throw TypeError
  end.

(** The handler stored in [this.state.onComplete]. *)
Definition onComplete (track loopCount : nat) : M unit :=
  let* v := get in
  if _isOnDefault v then
    if negb (js_truthy (loop (_opts v))) then resetAnimation else ret tt
  else
    match _currentAnimationOpts v with
    | Some opts =>
        if negb (Request.loop opts) then
          let opts' :=
            {| Request.iterations := js_decrement (Request.iterations opts);
               Request.callback := Request.callback opts;
               Request.eventCallback := Request.eventCallback opts;
               Request.loop := Request.loop opts;
               Request.animationName := Request.animationName opts |} in
          modify (set_currentAnimationOpts (Some opts')) >>
          if (Request.iterations opts' <=? 0)%Z then
            match Request.callback opts' with
            | Some cb => invoke (Completed cb)
            | None => ret tt
            end >>
            resetAnimation
          else
            setAnimationByName 0 (Request.animationName opts') false
        else ret tt
    | None => ret tt
    end.

(** The handler stored in [this.state.onEvent]. *)
Definition onEvent (track : nat) (data : EventData) : M unit :=
  let* v := get in
  if negb (_isOnDefault v) then
    match _currentAnimationOpts v with
    | Some opts =>
        match Request.eventCallback opts with
        | Some cb => invoke (Event cb data)
        | None => ret tt
        end
    | None => ret tt
    end
  else ret tt.

(** The handlers as the engine calls them, one after the other; an
    exception of a handler ends the run and leaves through the engine. *)
Fixpoint deliver (hs : list HandlerCall) : M unit :=
  match hs with
  | [] => ret tt
  | OnComplete track loopCount :: rest => onComplete track loopCount >> deliver rest
  | OnEvent track data :: rest => onEvent track data >> deliver rest
  end.

(** [this.state.apply(this.skeleton)]: the engine poses the skeleton and
    calls the handlers it finds stored in the state. *)
Definition state_apply : M unit :=
  fun v =>
    match state v, skeleton v with
    | Some st, Some sk =>
        (if handlers st then deliver (applyCallbacks st) else ret tt)
          (set_skeleton (Some (applyState st sk))
             (set_state (Some (record_call Apply st)) v))
    | _, _ => Throw TypeError v
    end.

(** The source data [resetAllAnimations] settles on: [None] when what it
    found is falsy. *)
Definition resolveJson (opts : Opts) : M (option SpineJson) :=
  let of_text (r : ParseResult SpineJson) : M (option SpineJson) :=
    match r with
    | ParseThrows => throw SyntaxError
    | ParsedFalsy => ret None
    | Parsed j => ret (Some j)
    end in
  if js_truthy (spineData opts) then ret (spineData opts)
  else if js_truthy (jsonText opts) then of_text (JSON_parse (default EmptyString (jsonText opts)))
  else
    match CACHE (default "undefined" (jsonFile opts)) with
    | Some text => of_text (JSON_parse text)
    | None => throw SyntaxError
    end.

(** [resetAllAnimations(newOpts)].  The reader is given [opts.animationScale]
    as its scale; [spine.Bone.yDown = true] is a switch of the runtime and
    shows only in the transforms [worldBone] reports. *)
Definition resetAllAnimations (newOpts : option Opts) : M unit :=
  let* v := get in
  let opts := merge (default no_opts newOpts) (_opts v) in
  let* jsonData := resolveJson opts in
  match jsonData with
  | None => ret tt
  | Some jsonData =>
      let imagePath := js_or (imagePath opts) EmptyString ++ "/" in
      modify (set_rendererObjects []) >>
      let '(atts, pool) :=
        readSkeletonAttachments imagePath
          (readAttachments (animationScale opts) jsonData) [] in
      modify (set_rendererObjects pool) >>
      let data := {| animations := readAnimations jsonData; attachments := atts |} in
      modify (set_skeletonData (Some data)) >>
      modify (set_skeleton (Some (newSkeleton data))) >>
      let* st := createState in
      modify (set_state (Some (set_defaultMix (js_or (defaultMix_opt opts) 0.4) st))) >>
      (if js_truthy (defaultAnimation opts) then
         setAnimationByName 0 (default EmptyString (defaultAnimation opts))
                            (js_or (loop opts) true)
       else ret tt) >>
      modify (set_currentAnimationOpts None) >>
      modify (set_isOnDefault true) >>
      modify (set_isPlaying (js_or (autoStart opts) false)) >>
      modify (set_frameRate (Some (js_or (frameRate_opt opts) 30))) >>
      modify (fun v => set_state (option_map set_handlers (state v)) v)
  end.

(** The constructor, after the superclass constructor has stored the
    options and set up the style. *)
Definition init : M unit := resetAllAnimations None.

Definition getDuration (animationName : string) : M (option Q) :=
  let* v := get in
  match skeletonData v with
  | None => throw TypeError
  | Some d =>
      match findAnimation animationName (animations d) with
      | None => throw (AnimationNotFound animationName)
      | Some animation =>
          ret (js_mul (duration animation * 1000) (js_div 30 (frameRate v)))
      end
  end.

(** The geometry [_present] gives the image of a region attachment shown
    by draw-order entry [i], whose slot hangs on a bone with world
    transform [bone]. *)
Definition region_style (bone : Bone.t) (attachment : RegionAttachment.t) (i : nat) : Style.t :=
  let x := Bone.worldX bone + RegionAttachment.x attachment * Bone.m00 bone
           + RegionAttachment.y attachment * Bone.m01 bone in
  let y := Bone.worldY bone + RegionAttachment.x attachment * Bone.m10 bone
           + RegionAttachment.y attachment * Bone.m11 bone in
  let rotation :=
    - (Bone.worldRotation bone + RegionAttachment.rotation attachment)
    * (Math_PI / 180) in
  let w := RegionAttachment.width attachment * Bone.worldScaleX bone in
  let h := RegionAttachment.height attachment * Bone.worldScaleY bone in
  let hw := w / 2 in
  let hh := h / 2 in
  {| Style.anchorX := hw;
     Style.anchorY := hh;
     Style.width := w;
     Style.height := h;
     Style.x := x - hw;
     Style.y := y - hh;
     Style.r := rotation;
     Style.zIndex := i;
     Style.visible := true |}.

(** One pass of the draw-order loop of [_present], for entry [i]; an
    attachment without an image makes [img.style] a TypeError. *)
Definition present_slot (p : Pose) (i : nat) (slot : Slot) : M unit :=
  match attachment slot with
  | Some (Region attachment) =>
      let bone := worldBone p (bone slot) in
      let* v := get in
      match rendererObjects v !! RegionAttachment.rendererObject attachment with
      | None => throw TypeError
      | Some img =>
          modify (set_rendererObjects
            (<[RegionAttachment.rendererObject attachment :=
                 with_style (fun _ => region_style bone attachment i) img]>
               (rendererObjects v)))
      end
  | _ => ret tt
  end.

Fixpoint present_from (p : Pose) (i : nat) (drawOrder : list Slot) : M unit :=
  match drawOrder with
  | [] => ret tt
  | slot :: rest => present_slot p i slot >> present_from p (S i) rest
  end.

Definition _present : M unit :=
  let* v := get in
  match skeleton v with
  | None => throw TypeError
  | Some skeleton =>
      let drawOrder := drawOrder skeleton in
      let posed := {| pose := updateWorldTransform (pose skeleton);
                      drawOrder := drawOrder |} in
      modify (set_skeleton (Some posed)) >>
      modify (fun v => set_rendererObjects
                         (map (with_style Style.hide) (rendererObjects v)) v) >>
      present_from (pose posed) 0 drawOrder
  end.

(** The first half of [tick]: time passes in the engine, and the pose
    follows, only while the view plays and is visible. *)
Definition advance (dt : Q) : M unit :=
  let* v := get in
  if _isPlaying v && visible v then
    state_update (js_mul dt (js_div (0.001 * 30) (frameRate v))) >>
    state_apply
  else ret tt.

Definition tick (dt : Q) : M unit :=
  advance dt >> _present.

End Methods.

(** ** Everything the host can do to a view *)

Section Runs.
Context {E : Engine}.

Inductive Op : Type :=
| StartAnimation (name : string) (opts : option StartOpts.t)
| StopAnimation
| ResetAnimation
| Pause
| Resume
| SetFramerate (fps : option Q)
| ResetAllAnimations (newOpts : option Opts)
| GetDuration (name : string)
| Tick (dt : Q)
| Complete (track loopCount : nat)
| Notify (track : nat) (data : EventData).

Definition run (op : Op) : M unit :=
  match op with
  | StartAnimation name opts => startAnimation name opts
  | StopAnimation => stopAnimation
  | ResetAnimation => resetAnimation
  | Pause => pause
  | Resume => resume
  | SetFramerate fps => setFramerate fps
  | ResetAllAnimations newOpts => resetAllAnimations newOpts
  | GetDuration name => getDuration name >> ret tt
  | Tick dt => tick dt
  | Complete track loopCount => onComplete track loopCount
  | Notify track data => onEvent track data
  end.

(** A sequence of calls; a call that throws leaves the view as it was at
    the throw, and the next call finds it so. *)
Fixpoint run_all (ops : list Op) (v : View) : View :=
  match ops with
  | [] => v
  | op :: rest => run_all rest (view_of (run op v))
  end.

(** [n] completions reported by the engine, one after the other. *)
Fixpoint completions (n : nat) (v : View) : View :=
  match n with
  | O => v
  | S k => completions k (view_of (onComplete 0 0 v))
  end.

(** ** The playback state (spec section 4.1) *)

(** The invariant of the data model: a current request only when the view
    is not on its default animation. *)
Definition coherent (v : View) : Prop :=
  _isOnDefault v = true -> _currentAnimationOpts v = None.

Definition Stopped (v : View) : Prop :=
  _isPlaying v = false /\ visible v = false /\ _currentAnimationOpts v = None.

Definition DefaultLoop (v : View) : Prop :=
  _isOnDefault v = true /\ _isPlaying v = true.

Definition Transient (v : View) : Prop :=
  exists r, _currentAnimationOpts v = Some r.

Definition at_most_one (v : View) : Prop :=
  ~ (Stopped v /\ DefaultLoop v) /\
  ~ (Stopped v /\ Transient v) /\
  ~ (DefaultLoop v /\ Transient v).

(** The fields of the playback controller; the presenter leaves them
    alone. *)
Definition same_control (v v' : View) : Prop :=
  _opts v' = _opts v /\ visible v' = visible v /\ _isPlaying v' = _isPlaying v /\
  _isOnDefault v' = _isOnDefault v /\
  _currentAnimationOpts v' = _currentAnimationOpts v /\
  frameRate v' = frameRate v /\ fired v' = fired v.

End Runs.

(** ** A small engine to run the methods on

    The source document is the list of its animations and attachments,
    a pose is the list of its bones' world transforms, a new skeleton
    shows every attachment on bone 0 in reading order, and applying the
    state or updating the world transform leaves the pose as it is.  The
    engine keeps one track and reports its completion by the rule of
    the spine runtime: a looping animation when its time wraps around
    the end of the animation, another one when its time reaches the
    end; it reports no events. *)
Module Demo.

Definition bone0 : Bone.t := Bone.mk 0 0 0 1 1 1 0 0 1.

(** The entry of the track: the animation set last, the time spent on
    it, and that time at the last apply; a time that is not a number is
    [None]. *)
Record Track : Type := {
  entry : string;
  looping : bool;
  time : option Q;
  lastTime : option Q
}.

Definition endTime (d : SkeletonData) (name : string) : Q :=
  match findAnimation name (animations d) with
  | Some a => duration a
  | None => 0
  end.

Definition Qlt_bool (a b : Q) : bool := negb (Qle_bool b a).

(** [a % b] for [b] other than zero. *)
Definition Qrem (a b : Q) : Q :=
  let q := a / b in
  a - b * inject_Z (Z.quot (Qnum q) (Z.pos (Qden q))).

(** The track after the calls [l] made on a state over data [d]. *)
Fixpoint track_after (d : SkeletonData) (l : list EngineCall) (t : option Track)
    : option Track :=
  match l with
  | [] => t
  | SetAnimationByName _ n b :: rest =>
      track_after d rest
        (Some {| entry := n; looping := b; time := Some 0; lastTime := Some (-1) |})
  | Update delta :: rest =>
      track_after d rest
        (match t with
         | Some tr =>
             let ended := match lastTime tr with
                          | Some lt => Qle_bool (endTime d (entry tr)) lt
                          | None => false
                          end in
             if negb (looping tr) && ended then None
             else Some {| entry := entry tr; looping := looping tr;
                          time := match time tr, delta with
                                  | Some t0, Some dt => Some (t0 + dt)
                                  | _, _ => None
                                  end;
                          lastTime := lastTime tr |}
         | None => None
         end)
  | Apply :: rest =>
      track_after d rest
        (match t with
         | Some tr => Some {| entry := entry tr; looping := looping tr;
                              time := time tr; lastTime := time tr |}
         | None => None
         end)
  end.

(** Whether the track completes at an apply, and the loop count then. *)
Definition completes (e : Q) (tr : Track) : option nat :=
  match time tr, lastTime tr with
  | Some t, Some lt =>
      let q := (if looping tr then t else if Qle_bool t e then t else e) / e in
      let count := Z.to_nat (Qnum q / Z.pos (Qden q)) in
      if looping tr then
        if Qeq_bool e 0 then None
        else if Qlt_bool (Qrem t e) (Qrem lt e) then Some count else None
      else
        if Qlt_bool lt e && Qle_bool e t then Some count else None
  | _, _ => None
  end.

Definition callbacks (st : AnimationState) : list HandlerCall :=
  match track_after (st_data st) (calls st) None with
  | Some tr =>
      match completes (endTime (st_data st) (entry tr)) tr with
      | Some n => [OnComplete 0 n]
      | None => []
      end
  | None => []
  end.

#[local] Instance engine : Engine := {|
  SpineJson := list Animation * list AttachmentSpec;
  Pose := list Bone.t;
  JSON_parse := fun _ => ParseThrows;
  CACHE := fun _ => None;
  readAnimations := fun j => fst j;
  readAttachments := fun _ j => snd j;
  newSkeleton := fun d =>
    {| pose := [bone0];
       drawOrder := map (fun a => {| bone := 0; attachment := Some a |}) (attachments d) |};
  applyState := fun _ sk => sk;
  applyCallbacks := callbacks;
  updateWorldTransform := fun p => p;
  worldBone := fun p i => nth i p bone0
|}.

Definition idle : Animation := {| anim_name := "idle"; duration := 1.5 |}.
Definition jump : Animation := {| anim_name := "jump"; duration := 0.0625 |}.

Definition doc : SpineJson :=
  ([idle; jump],
   [RegionSpec "head" "head" 0 0 0 40 60; BoundingBoxSpec "hit";
    RegionSpec "body" "body" 0 0 0 10 20]).

Definition opts_with (anim : option string) (lp auto : option bool) : Opts :=
  {| spineData := Some doc; jsonText := None; jsonFile := None;
     imagePath := Some "img"; animationScale := Some 1;
     defaultAnimation := anim; defaultMix_opt := None; frameRate_opt := None;
     loop := lp; autoStart := auto |}.

(** The view as the superclass constructor leaves it: options stored,
    style set up, nothing of the animation yet. *)
Definition blank (o : Opts) (vis : bool) : View :=
  {| _opts := o; visible := vis; _isPlaying := false; _isOnDefault := false;
     _currentAnimationOpts := None; frameRate := None; rendererObjects := [];
     skeletonData := None; skeleton := None; state := None; fired := [] |}.

(** A view constructed with default animation idle, on autostart. *)
Definition idle_view : View :=
  view_of (init (blank (opts_with (Some "idle") (Some true) (Some true)) true)).

(** A view constructed without a default animation. *)
Definition bare_view : View :=
  view_of (init (blank (opts_with None None None) true)).

(** Jump twice, then call back 7. *)
Definition jump_twice : StartOpts.t := StartOpts.mk (Some 2%Z) (Some 7%nat) None None.

(** Play idle once as a transient animation, then call back 8. *)
Definition idle_once : StartOpts.t := StartOpts.mk (Some 1%Z) (Some 8%nat) None None.

Definition head : RegionAttachment.t := RegionAttachment.mk "head" 0 0 0 0 40 60.

Definition body : RegionAttachment.t := RegionAttachment.mk "body" 1 0 0 0 10 20.

(** The skeleton data read off [doc], and the animation state of a view
    constructed over it with default animation idle. *)
Definition idle_data : SkeletonData :=
  {| animations := [idle; jump];
     attachments := [Region head; BoundingBox "hit"; Region body] |}.

Definition idle_state : AnimationState :=
  {| st_data := idle_data; defaultMix := 0.4;
     calls := [SetAnimationByName 0 "idle" true]; handlers := true |}.

Definition head_slot : Slot := {| bone := 0; attachment := Some (Region head) |}.

(** The scenario of the spec: one bone at (100, 50), rotation 0, scale
    (1, 1), carrying the head, 40 by 60, at offset (0, 0). *)
Definition posed_skeleton : Skeleton Pose :=
  {| pose := [Bone.mk 100 50 0 1 1 1 0 0 1]; drawOrder := [head_slot] |}.

Definition posed_view : View := set_skeleton (Some posed_skeleton) idle_view.

(** A default animation configured not to loop. *)
Definition once_view : View :=
  view_of (init (blank (opts_with (Some "idle") (Some false) (Some true)) true)).

(** A view without autoStart that has started a jump, and so is visible. *)
Definition jumping_view : View :=
  view_of (startAnimation "jump" None
             (view_of (init (blank (opts_with (Some "idle") None None) false)))).

(** The idle view after [stopAnimation]: hidden. *)
Definition stopped_view : View := view_of (stopAnimation idle_view).

(** Jump once, then call back 7. *)
Definition jump_once : StartOpts.t := StartOpts.mk (Some 1%Z) (Some 7%nat) None None.

(** The idle view in the middle of that one jump. *)
Definition jump_once_view : View :=
  view_of (startAnimation "jump" (Some jump_once) idle_view).

Definition walk : Animation := {| anim_name := "walk"; duration := 0.5 |}.

(** Another source document, which has no idle. *)
Definition walk_doc : SpineJson :=
  ([walk; jump], [RegionSpec "head" "head" 0 0 0 40 60]).

(** The idle view after [resetAllAnimations] with that document and
    walk for default animation: walk is armed, and the stored default
    animation is idle as before. *)
Definition walk_view : View :=
  view_of (resetAllAnimations
             (Some {| spineData := Some walk_doc; jsonText := None; jsonFile := None;
                      imagePath := None; animationScale := None;
                      defaultAnimation := Some "walk"; defaultMix_opt := None;
                      frameRate_opt := None; loop := None; autoStart := None |})
             idle_view).

(** As many jumps as 2^54, then call back 7. *)
Definition jump_for_ever : StartOpts.t :=
  StartOpts.mk (Some (2 ^ 54)%Z) (Some 7%nat) None None.

End Demo.

(** ** Vocabulary of the statements *)

(** A number with no fractional part. *)
Definition whole (q : Q) : Prop := exists z : Z, q == inject_Z z.

(** An engine whose host has every resource file cached as the text
    [null], which parses to a falsy value. *)
Module Quiet.

#[local] Instance engine : Engine := {|
  SpineJson := list Animation * list AttachmentSpec;
  Pose := list Bone.t;
  JSON_parse := fun _ => ParsedFalsy;
  CACHE := fun _ => Some "null";
  readAnimations := fun j => fst j;
  readAttachments := fun _ j => snd j;
  newSkeleton := fun d => {| pose := []; drawOrder := [] |};
  applyState := fun _ sk => sk;
  applyCallbacks := fun _ => [];
  updateWorldTransform := fun p => p;
  worldBone := fun p i => nth i p Demo.bone0
|}.

(** A view constructed with no options at all. *)
Definition blank : View :=
  {| _opts := no_opts; visible := true; _isPlaying := false; _isOnDefault := false;
     _currentAnimationOpts := None; frameRate := None; rendererObjects := [];
     skeletonData := None; skeleton := None; state := None; fired := [] |}.

End Quiet.

Section Vocabulary.
Context {E : Engine}.

(** A request in flight: [m] cycles still to complete, [k] re-arms made. *)
Definition in_flight (v : View) (st0 : AnimationState) (r : Request.t) (m : Z) (k : nat)
    (w : View) : Prop :=
  _opts w = _opts v /\ fired w = fired v /\
  _isOnDefault w = false /\
  _currentAnimationOpts w =
    Some {| Request.iterations := m;
            Request.callback := Request.callback r;
            Request.eventCallback := Request.eventCallback r;
            Request.loop := false;
            Request.animationName := Request.animationName r |} /\
  exists st, state w = Some st /\ st_data st = st_data st0 /\
             calls st = (calls st0 ++
                         repeat (SetAnimationByName 0 (Request.animationName r) false) k)%list.

(** The completion callback of the request in flight, if any. *)
Definition request_callback (v : View) : option Callback :=
  _currentAnimationOpts v ≫= Request.callback.

(** The call starts an animation with completion callback [cb]. *)
Definition starts_with (cb : Callback) (op : Op) : Prop :=
  exists name o, op = StartAnimation name (Some o) /\ StartOpts.callback o = Some cb.

(** From [v] to [w] the view has called no completion callback but that
    of the request [v] has in flight, and has taken no other request. *)
Definition own_callback_only (v w : View) : Prop :=
  exists extra,
    fired w = (fired v ++ extra)%list /\
    (forall cb, Completed cb ∈ extra -> request_callback v = Some cb) /\
    (forall cb, request_callback w = Some cb -> request_callback v = Some cb).

(** Every image a draw-order entry draws on is in the pool. *)
Definition pool_ok (l : list Slot) (pool : list ImageView) : Prop :=
  forall s a, s ∈ l -> attachment s = Some (Region a) ->
              (RegionAttachment.rendererObject a < length pool)%nat.

(** Entry [i] of the draw order is slot [s], showing region attachment [a]. *)
Definition shows (l : list Slot) (i : nat) (s : Slot) (a : RegionAttachment.t) : Prop :=
  l !! i = Some s /\ attachment s = Some (Region a).

(** No entry after [i] draws on image [k]. *)
Definition last_on (l : list Slot) (i k : nat) : Prop :=
  forall j s a, (i < j)%nat -> shows l j s a -> RegionAttachment.rendererObject a <> k.

(** The two conditions above, as checks that compute. *)
Definition draws_on (k : nat) (s : Slot) : bool :=
  match attachment s with
  | Some (Region a) => Nat.eqb (RegionAttachment.rendererObject a) k
  | _ => false
  end.

Definition slot_ok (n : nat) (s : Slot) : bool :=
  match attachment s with
  | Some (Region a) => Nat.ltb (RegionAttachment.rendererObject a) n
  | _ => true
  end.

Definition pool_okb (l : list Slot) (pool : list ImageView) : bool :=
  forallb (slot_ok (length pool)) l.

Definition last_onb (l : list Slot) (i k : nat) : bool :=
  forallb (fun s => negb (draws_on k s)) (drop (S i) l).

(** What a presentation pass over draw order [l] leaves in the pool: an
    image is visible exactly when some entry draws on it, and its z-index
    is the index of the entry that drew on it last. *)
Definition shown_exactly (l : list Slot) (pool : list ImageView) : Prop :=
  forall k img, pool !! k = Some img ->
    (Style.visible (style img) = true <->
     exists j s a, shows l j s a /\ RegionAttachment.rendererObject a = k) /\
    (forall j s a, shows l j s a -> RegionAttachment.rendererObject a = k ->
                   last_on l j k -> Style.zIndex (style img) = j).

(** The draw-order loop on the pool alone. *)
Definition paint_slot (p : Pose) (i : nat) (s : Slot) (pool : list ImageView)
    : list ImageView :=
  match attachment s with
  | Some (Region a) =>
      match pool !! RegionAttachment.rendererObject a with
      | Some img =>
          <[RegionAttachment.rendererObject a :=
              with_style (fun _ => region_style (worldBone p (bone s)) a i) img]> pool
      | None => pool
      end
  | _ => pool
  end.

Fixpoint paint (p : Pose) (i : nat) (l : list Slot) (pool : list ImageView)
    : list ImageView :=
  match l with
  | [] => pool
  | s :: rest => paint p (S i) rest (paint_slot p i s pool)
  end.

(** The style the loop leaves on image [k]: that of the last entry
    drawing on it, if there is one. *)
Fixpoint placed (p : Pose) (i : nat) (l : list Slot) (k : nat) : option Style.t :=
  match l with
  | [] => None
  | s :: rest =>
      match placed p (S i) rest k with
      | Some st => Some st
      | None =>
          match attachment s with
          | Some (Region a) =>
              if decide (RegionAttachment.rendererObject a = k)
              then Some (region_style (worldBone p (bone s)) a i)
              else None
          | _ => None
          end
      end
  end.

(** The style the regions of draw order [l] have in the pool, bones
    posed as in [p]: each image that of the entry drawing on it last. *)
Definition drawn (p : Pose) (l : list Slot) (pool : list ImageView) : Prop :=
  forall j s a,
    shows l j s a -> last_on l j (RegionAttachment.rendererObject a) ->
    exists img,
      pool !! RegionAttachment.rendererObject a = Some img /\
      style img = region_style (worldBone p (bone s)) a j.

(** The scene the presenter works on, and the rate of the clock. *)
Definition same_scene (v w : View) : Prop :=
  rendererObjects w = rendererObjects v /\ skeleton w = skeleton v /\
  skeletonData w = skeletonData v /\ frameRate w = frameRate v.

(** A call that arms an animation. *)
Definition arming (c : EngineCall) : Prop :=
  match c with
  | SetAnimationByName _ _ _ => True
  | _ => False
  end.

(** From [v] to [w] the animation state has only been told to arm
    animations. *)
Definition armed_further (v w : View) : Prop :=
  match state v with
  | Some st =>
      exists cs,
        state w = Some {| st_data := st_data st; defaultMix := defaultMix st;
                          calls := calls st ++ cs; handlers := handlers st |} /\
        Forall arming cs
  | None => state w = None
  end.

(** ** Vocabulary of the further properties *)

(** A call the view may make on a state over data [d]: on track 0, and
    with an animation the data has. *)
Definition call_ok (d : SkeletonData) (c : EngineCall) : Prop :=
  match c with
  | SetAnimationByName track name _ =>
      track = 0%nat /\ findAnimation name (animations d) <> None
  | _ => True
  end.

(** The frame rate, once assigned, is not zero. *)
Definition rate_ok (v : View) : Prop :=
  forall q, frameRate v = Some q -> ~ q == 0.

(** The animation state was created over the view's skeleton data. *)
Definition data_ok (v : View) : Prop :=
  skeletonData v = st_data <$> state v.

(** Every region attachment of the skeleton data has its image in the
    pool. *)
Definition pool_covers (v : View) : Prop :=
  forall d a, skeletonData v = Some d -> Region a ∈ attachments d ->
              (RegionAttachment.rendererObject a < length (rendererObjects v))%nat.

(** The view has made only calls it may make. *)
Definition calls_ok (v : View) : Prop :=
  forall st, state v = Some st -> Forall (call_ok (st_data st)) (calls st).

Definition wellformed (v : View) : Prop :=
  rate_ok v /\ data_ok v /\ pool_covers v /\ calls_ok v.

(** From [v] to [w] the frame rate, the skeleton data and the size of the
    pool are kept, and the animation state has only been called further. *)
Definition extends (v w : View) : Prop :=
  frameRate w = frameRate v /\
  skeletonData w = skeletonData v /\
  length (rendererObjects w) = length (rendererObjects v) /\
  match state v with
  | Some st =>
      exists cs,
        state w = Some {| st_data := st_data st; defaultMix := defaultMix st;
                          calls := calls st ++ cs; handlers := handlers st |} /\
        Forall (call_ok (st_data st)) cs
  | None => state w = None
  end.

(** A method that only ever extends the view. *)
Definition Ext {A : Type} (m : M A) : Prop :=
  forall v, extends v (view_of (m v)).

(** The images the region attachments of a list draw on, in order. *)
Fixpoint region_ids (atts : list Attachment) : list nat :=
  match atts with
  | [] => []
  | Region a :: rest => RegionAttachment.rendererObject a :: region_ids rest
  | BoundingBox _ :: rest => region_ids rest
  end.

(** What the factory makes of one attachment the reader met, given the
    pool the view ends up with. *)
Definition made_from (imagePath : string) (pool : list ImageView)
    (spec : AttachmentSpec) (att : Attachment) : Prop :=
  match spec, att with
  | RegionSpec n path ax ay arot aw ah, Region a =>
      a = RegionAttachment.mk n (RegionAttachment.rendererObject a) ax ay arot aw ah /\
      pool !! RegionAttachment.rendererObject a =
        Some (new_ImageView (imagePath ++ path ++ ".png"))
  | BoundingBoxSpec n, BoundingBox n' => n' = n
  | _, _ => False
  end.

(** The view [resetAllAnimations] has built when it comes to arming the
    default animation: pool, skeleton data, skeleton and a state not yet
    called on, the playback fields still as they were. *)
Definition rebuilt (opts : Opts) (j : SpineJson) (v : View) : View :=
  let r := readSkeletonAttachments (js_or (imagePath opts) EmptyString ++ "/")
             (readAttachments (animationScale opts) j) [] in
  let data := {| animations := readAnimations j; attachments := r.1 |} in
  set_state
    (Some {| st_data := data; defaultMix := js_or (defaultMix_opt opts) 0.4;
             calls := []; handlers := false |})
    (set_skeleton (Some (newSkeleton data))
       (set_skeletonData (Some data) (set_rendererObjects r.2 v))).


(** The completion callback of a request as the one invocation it makes. *)
Definition completed_by (cb : option Callback) : list Invocation :=
  match cb with
  | Some c => [Completed c]
  | None => []
  end.

End Vocabulary.

(** * Properties *)

Ltac exec := unfold bind, modify, get, ret, throw, invoke in *; simpl in *.

Ltac cases :=
  repeat match goal with
         | |- context [match ?x with _ => _ end] =>
             lazymatch x with
             | context [match _ with _ => _ end] => fail
             | _ => destruct x eqn:?; simpl
             end
         end.

Section Proofs.
Context {E : Engine}.

(** ** How outcomes compose *)

Lemma view_of_bind {A B : Type} (m : M A) (k : A -> M B) (v : View) :
  view_of (bind m k v) =
  match m v with
  | Return a v' => view_of (k a v')
  | Throw _ v' => v'
  end.
Proof. unfold bind. destruct (m v); reflexivity. Qed.

Lemma same_control_refl (v : View) : same_control v v.
Proof. unfold same_control; auto 10. Qed.

Lemma same_control_trans (v1 v2 v3 : View) :
  same_control v1 v2 -> same_control v2 v3 -> same_control v1 v3.
Proof. unfold same_control; intuition congruence. Qed.

(** ** Looking for the source data reads the view and leaves it alone *)

Lemma resolveJson_view (o : Opts) (v : View) :
  (exists j, resolveJson o v = Return j v) \/ resolveJson o v = Throw SyntaxError v.
Proof.
  unfold resolveJson.
  destruct (js_truthy (spineData o)); [left; eexists; reflexivity|].
  destruct (js_truthy (jsonText o)).
  - destruct (JSON_parse _); exec; eauto.
  - destruct (CACHE _); [destruct (JSON_parse _)|]; exec; eauto.
Qed.

(** ** The presenter leaves the playback controller's fields alone *)

Lemma present_slot_control (p : Pose) (i : nat) (s : Slot) (v : View) :
  same_control v (view_of (present_slot p i s v)).
Proof.
  unfold present_slot, same_control.
  destruct (attachment s) as [[a|n]|]; exec; auto 10.
  destruct (rendererObjects v !! _); simpl; auto 10.
Qed.

Lemma present_from_control (l : list Slot) :
  forall p i v, same_control v (view_of (present_from p i l v)).
Proof.
  induction l as [|s l IH]; intros p i v; simpl.
  - apply same_control_refl.
  - rewrite view_of_bind.
    pose proof (present_slot_control p i s v) as H.
    destruct (present_slot p i s v); simpl in H; auto.
    eapply same_control_trans; eauto.
Qed.

Lemma present_control (v : View) : same_control v (view_of (_present v)).
Proof.
  unfold _present. exec. destruct (skeleton v) as [sk|]; simpl.
  - eapply same_control_trans; [|apply present_from_control].
    unfold same_control; simpl; auto 10.
  - apply same_control_refl.
Qed.

(** ** From a view to the one a tick leaves

    A tick is two calls on the engine, the handlers the engine calls
    from within the second, and the presenter.  What relates a view to
    itself, composes, and holds across an assignment of the state or of
    the skeleton and across the two handlers, holds across the first
    half of a tick; if it holds across the presenter too, across the
    tick. *)

Section Across.
Variable R : View -> View -> Prop.
Hypothesis R_refl : forall v, R v v.
Hypothesis R_trans : forall a b c, R a b -> R b c -> R a c.
Hypothesis R_state : forall s v, R v (set_state s v).
Hypothesis R_skeleton : forall s v, R v (set_skeleton s v).
Hypothesis R_onComplete : forall t n v, R v (view_of (onComplete t n v)).
Hypothesis R_onEvent : forall t d v, R v (view_of (onEvent t d v)).

Lemma deliver_across (hs : list HandlerCall) :
  forall v, R v (view_of (deliver hs v)).
Proof.
  induction hs as [|h hs IH]; intros v; simpl.
  - apply R_refl.
  - destruct h as [t n|t d]; rewrite view_of_bind.
    + pose proof (R_onComplete t n v) as H.
      destruct (onComplete t n v); simpl in H; eauto.
    + pose proof (R_onEvent t d v) as H.
      destruct (onEvent t d v); simpl in H; eauto.
Qed.

Lemma advance_across (dt : Q) (v : View) : R v (view_of (advance dt v)).
Proof.
  unfold advance, state_update, state_apply. exec.
  destruct (_isPlaying v && visible v); [|apply R_refl].
  destruct (state v) as [st|]; simpl; [|apply R_refl].
  destruct (skeleton v) as [sk|]; simpl; [|apply R_state].
  eapply R_trans; [apply R_state|].
  eapply R_trans; [apply R_skeleton|].
  destruct (handlers st); [apply deliver_across|apply R_refl].
Qed.

Hypothesis R_present : forall v, R v (view_of (_present v)).

Lemma tick_across (dt : Q) (v : View) : R v (view_of (tick dt v)).
Proof.
  unfold tick. rewrite view_of_bind.
  pose proof (advance_across dt v) as H.
  destruct (advance dt v); simpl in H; auto.
  eapply R_trans; [exact H|apply R_present].
Qed.

End Across.

Lemma same_scene_refl (v : View) : same_scene v v.
Proof. unfold same_scene; auto. Qed.

Lemma same_scene_trans (a b c : View) :
  same_scene a b -> same_scene b c -> same_scene a c.
Proof. unfold same_scene; intuition congruence. Qed.

(** The handlers leave the scene alone. *)
Lemma onComplete_scene (track loopCount : nat) (v : View) :
  same_scene v (view_of (onComplete track loopCount v)).
Proof.
  unfold onComplete, resetAnimation, stopAnimation, setAnimationByName. exec.
  cases; unfold same_scene; simpl; auto.
Qed.

Lemma onEvent_scene (track : nat) (data : EventData) (v : View) :
  same_scene v (view_of (onEvent track data v)).
Proof.
  unfold onEvent. exec. cases; unfold same_scene; simpl; auto.
Qed.

Lemma deliver_scene (hs : list HandlerCall) (v : View) :
  same_scene v (view_of (deliver hs v)).
Proof.
  apply (deliver_across same_scene).
  - apply same_scene_refl.
  - apply same_scene_trans.
  - intros t n a. apply onComplete_scene.
  - intros t d a. apply onEvent_scene.
Qed.

(** The first half of a tick leaves the pool alone. *)
Lemma advance_pool (dt : Q) (v : View) :
  rendererObjects (view_of (advance dt v)) = rendererObjects v.
Proof.
  apply (advance_across (fun a b => rendererObjects b = rendererObjects a)); auto.
  - intros a b c Hab Hbc. congruence.
  - intros t n a. apply onComplete_scene.
  - intros t d a. apply onEvent_scene.
Qed.

Lemma coherent_same (v v' : View) : same_control v v' -> coherent v -> coherent v'.
Proof. unfold same_control, coherent. intros (_ & _ & _ & -> & -> & _) H; exact H. Qed.

(** ** The invariant of the playback state *)

Lemma onComplete_coherent (track loopCount : nat) (v : View) :
  coherent v -> coherent (view_of (onComplete track loopCount v)).
Proof.
  intros Hc.
  unfold onComplete, resetAnimation, setAnimationByName. exec.
  destruct (_isOnDefault v) eqn:Hd.
  + destruct (negb _); simpl; auto.
    destruct (js_truthy _); simpl; [|unfold coherent; reflexivity].
    destruct (state v); simpl; auto.
    destruct (findAnimation _ _); simpl; auto. unfold coherent; reflexivity.
  + destruct (_currentAnimationOpts v) as [r|]; simpl; auto.
    destruct (negb _); simpl; auto.
    destruct (_ <=? 0)%Z; simpl.
    * destruct (Request.callback r); simpl;
      (destruct (js_truthy _); simpl; [|unfold coherent; reflexivity]);
      (destruct (state v); simpl; [|unfold coherent; simpl; congruence]);
      (destruct (findAnimation _ _); simpl; unfold coherent; simpl; congruence).
    * destruct (state v); simpl; [|unfold coherent; simpl; congruence].
      destruct (findAnimation _ _); simpl; unfold coherent; simpl; congruence.
Qed.

Lemma onEvent_coherent (track : nat) (data : EventData) (v : View) :
  coherent v -> coherent (view_of (onEvent track data v)).
Proof.
  intros Hc. unfold onEvent. exec.
  destruct (negb _); simpl; auto.
  destruct (_currentAnimationOpts v) as [r|]; simpl; auto.
  destruct (Request.eventCallback r); simpl; auto.
Qed.

Lemma run_coherent (op : Op) (v : View) : coherent v -> coherent (view_of (run op v)).
Proof.
  intros Hc. destruct op; simpl.
  - unfold startAnimation, setAnimationByName. exec.
    destruct (state v); simpl; auto.
    destruct (findAnimation _ _); simpl; auto.
    destruct opts; simpl; unfold coherent; simpl; discriminate.
  - unfold coherent; reflexivity.
  - unfold resetAnimation, setAnimationByName. exec.
    destruct (js_truthy _); simpl; [|unfold coherent; reflexivity].
    destruct (state v); simpl; auto.
    destruct (findAnimation _ _); simpl; auto. unfold coherent; reflexivity.
  - exact Hc.
  - exact Hc.
  - exact Hc.
  - unfold resetAllAnimations. rewrite view_of_bind. simpl.
    rewrite view_of_bind.
    destruct (resolveJson_view (merge (default no_opts newOpts) (_opts v)) v)
      as [[j ->]| ->]; auto.
    destruct j as [j|]; simpl; auto.
    destruct (readSkeletonAttachments _ _ _) as [atts pool].
    unfold setAnimationByName. exec.
    destruct (js_truthy _); simpl; try (unfold coherent; reflexivity).
    destruct (findAnimation _ _); simpl; auto. unfold coherent; reflexivity.
  - unfold getDuration. exec.
    destruct (skeletonData v); simpl; auto.
    destruct (findAnimation _ _); simpl; auto.
  - revert Hc.
    apply (tick_across (fun a b => coherent a -> coherent b)); auto.
    + intros t n a. apply onComplete_coherent.
    + intros t d a. apply onEvent_coherent.
    + intros a. apply coherent_same, present_control.
  - apply onComplete_coherent; exact Hc.
  - apply onEvent_coherent; exact Hc.
Qed.

Lemma coherent_at_most_one (v : View) : coherent v -> at_most_one v.
Proof.
  unfold coherent, at_most_one, Stopped, DefaultLoop, Transient.
  intros Hc. repeat split.
  - intros [(Hp & _) (_ & Hp')]. congruence.
  - intros [(_ & _ & Hn) (r & Hr)]. congruence.
  - intros [(Hd & _) (r & Hr)]. rewrite (Hc Hd) in Hr. discriminate.
Qed.

(** C8. Every method of the view and both engine callbacks keep the
    invariant that there is a current transient request only while the
    view is not on its default animation: it holds after any sequence of
    calls made on a view where it held, also when a call throws.  Hence
    no two of the three playback conditions (stopped, playing the default
    animation, transient request in flight) hold together. *)
Theorem playback_invariant_preserved (ops : list Op) (v : View) :
  coherent v ->
  coherent (run_all ops v) /\ at_most_one (run_all ops v).
Proof.
  revert v. induction ops as [|op ops IH]; intros v Hc; simpl.
  - split; [exact Hc|apply coherent_at_most_one; exact Hc].
  - apply IH. apply run_coherent. exact Hc.
Qed.

End Proofs.

Section Reset.
Context {E : Engine}.

(** [p || true] is [true], whatever [p]. *)
Lemma js_or_true (p : option bool) : js_or p true = true.
Proof. destruct p as [[|]|]; reflexivity. Qed.

Lemma js_or_false (p : option bool) : js_or p false = js_truthy p.
Proof. destruct p as [[|]|]; reflexivity. Qed.

Lemma stopAnimation_returns (v : View) :
  exists v', stopAnimation v = Return tt v' /\ Stopped v' /\ _isOnDefault v' = true /\
             state v' = state v /\ fired v' = fired v /\ _opts v' = _opts v.
Proof. eexists. split; [reflexivity|]. unfold Stopped; simpl; auto 10. Qed.

Lemma resetAnimation_without_default (v : View) :
  js_truthy (defaultAnimation (_opts v)) = false ->
  resetAnimation v = stopAnimation v.
Proof. intros H. unfold resetAnimation. exec. rewrite H. reflexivity. Qed.

Lemma resetAnimation_with_default (v : View) (d : string) (st : AnimationState) (a : Animation) :
  defaultAnimation (_opts v) = Some d ->
  truthy d = true ->
  state v = Some st ->
  findAnimation d (animations (st_data st)) = Some a ->
  resetAnimation v =
  Return tt
    (set_currentAnimationOpts None
       (set_isOnDefault true
          (set_isPlaying true
             (set_visible true
                (set_state (Some (record_call (SetAnimationByName 0 d true) st)) v))))).
Proof.
  intros Hd Ht Hst Ha. unfold resetAnimation, setAnimationByName. exec.
  rewrite Hd. simpl. rewrite Ht, Hst, Ha, js_or_true. reflexivity.
Qed.

Lemma armed_in_app (l : list EngineCall) (n : string) (b : bool) (track : nat) :
  forall acc, armed_in (l ++ [SetAnimationByName track n b]) acc = Some (n, b).
Proof.
  induction l as [|c l IH]; intros acc; simpl; [reflexivity|].
  destruct c; apply IH.
Qed.

Lemma armed_record_call (st : AnimationState) (n : string) (b : bool) (track : nat) :
  armed (record_call (SetAnimationByName track n b) st) = Some (n, b).
Proof. unfold armed, record_call; simpl. apply armed_in_app. Qed.

(** What [resetAllAnimations] leaves when it found source data and the
    default animation, if one is configured, is in that data. *)
Lemma resetAllAnimations_returns (newOpts : option Opts) (v : View) (j : SpineJson) :
  let opts := merge (default no_opts newOpts) (_opts v) in
  resolveJson opts v = Return (Some j) v ->
  (forall d, defaultAnimation opts = Some d -> truthy d = true ->
             findAnimation d (readAnimations j) <> None) ->
  exists v' st,
    resetAllAnimations newOpts v = Return tt v' /\
    _opts v' = _opts v /\ visible v' = visible v /\ fired v' = fired v /\
    _isPlaying v' = js_truthy (autoStart opts) /\
    _isOnDefault v' = true /\
    _currentAnimationOpts v' = None /\
    frameRate v' = Some (js_or (frameRate_opt opts) 30) /\
    state v' = Some st /\
    animations (st_data st) = readAnimations j /\
    handlers st = true /\
    calls st =
      (if js_truthy (defaultAnimation opts)
       then [SetAnimationByName 0 (default EmptyString (defaultAnimation opts)) true]
       else []).
Proof.
  intros opts Hj Hd. unfold resetAllAnimations.
  unfold bind at 1. unfold get at 1. cbv beta iota zeta. fold opts.
  clearbody opts. unfold bind at 1. rewrite Hj.
  destruct (readSkeletonAttachments _ _ _) as [atts pool].
  unfold setAnimationByName, createState. exec.
  destruct (defaultAnimation opts) as [d|] eqn:Hdef; simpl.
  - destruct (truthy d) eqn:Ht; simpl.
    + specialize (Hd d eq_refl Ht).
      destruct (findAnimation d (readAnimations j)) as [a|]; [|congruence].
      simpl. rewrite js_or_true, js_or_false.
      do 2 eexists. split; [reflexivity|]. simpl. auto 12.
    + rewrite js_or_false. do 2 eexists. split; [reflexivity|]. simpl. auto 12.
  - rewrite js_or_false. do 2 eexists. split; [reflexivity|]. simpl. auto 12.
Qed.

(** C2. The default animation is armed looping whatever the configured
    loop flag is: [resetAnimation] and [resetAllAnimations] both pass
    [loop || true], which is [true] also when loop is configured false. *)
Theorem default_animation_armed_looping :
  (forall (v : View) (d : string) (st : AnimationState) (a : Animation),
      defaultAnimation (_opts v) = Some d ->
      truthy d = true ->
      state v = Some st ->
      findAnimation d (animations (st_data st)) = Some a ->
      exists v' st',
        resetAnimation v = Return tt v' /\ state v' = Some st' /\
        calls st' = (calls st ++ [SetAnimationByName 0 d true])%list /\
        armed st' = Some (d, true)) /\
  (forall (newOpts : option Opts) (v : View) (j : SpineJson) (d : string) (a : Animation),
      let opts := merge (default no_opts newOpts) (_opts v) in
      resolveJson opts v = Return (Some j) v ->
      defaultAnimation opts = Some d ->
      truthy d = true ->
      findAnimation d (readAnimations j) = Some a ->
      exists v' st',
        resetAllAnimations newOpts v = Return tt v' /\ state v' = Some st' /\
        calls st' = [SetAnimationByName 0 d true] /\
        armed st' = Some (d, true)).
Proof.
  split.
  - intros v d st a Hd Ht Hst Ha.
    rewrite (resetAnimation_with_default v d st a Hd Ht Hst Ha).
    do 2 eexists. split; [reflexivity|]. simpl. split; [reflexivity|].
    split; [reflexivity|]. apply armed_record_call.
  - intros newOpts v j d a opts Hj Hd Ht Ha.
    destruct (resetAllAnimations_returns newOpts v j Hj) as (v' & st & Hr & H).
    { fold opts. intros d' Hd' _. rewrite Hd in Hd'. injection Hd' as <-. congruence. }
    fold opts in H. rewrite Hd in H. simpl in H. rewrite Ht in H.
    destruct H as (_ & _ & _ & _ & _ & _ & _ & Hst & _ & _ & Hc).
    exists v', st. split; [exact Hr|]. split; [exact Hst|]. split; [exact Hc|].
    unfold armed. rewrite Hc. reflexivity.
Qed.

(** C9 (amended). After [resetAllAnimations] has found source data, the
    view is on its default state with no current request, it plays
    exactly when autoStart is set, and its visibility is what it was
    before the call.  So without autoStart it is Stopped only if it was
    hidden already; with autoStart and a default animation it is in
    DefaultLoop with that animation armed, and visible if it was visible:
    such is a visible view configured with default animation idle,
    loop and autoStart. *)
Theorem resetAllAnimations_playback (newOpts : option Opts) (v : View) (j : SpineJson) :
  let opts := merge (default no_opts newOpts) (_opts v) in
  resolveJson opts v = Return (Some j) v ->
  (forall d, defaultAnimation opts = Some d -> truthy d = true ->
             findAnimation d (readAnimations j) <> None) ->
  exists v',
    resetAllAnimations newOpts v = Return tt v' /\
    visible v' = visible v /\
    _isOnDefault v' = true /\
    _currentAnimationOpts v' = None /\
    (js_truthy (autoStart opts) = false ->
       _isPlaying v' = false /\ (visible v = false -> Stopped v')) /\
    (js_truthy (autoStart opts) = true ->
       _isPlaying v' = true /\
       forall d, defaultAnimation opts = Some d -> truthy d = true ->
                 DefaultLoop v' /\ (state v' ≫= armed) = Some (d, true)) /\
    (defaultAnimation opts = Some "idle" -> loop opts = Some true ->
     autoStart opts = Some true -> visible v = true ->
       DefaultLoop v' /\ visible v' = true /\ _isPlaying v' = true /\
       (state v' ≫= armed) = Some ("idle", true)).
Proof.
  intros opts Hj Hd.
  destruct (resetAllAnimations_returns newOpts v j Hj Hd)
    as (v' & st & Hr & _ & Hvis & _ & Hplay & Hdef & Hcur & _ & Hst & _ & _ & Hc).
  fold opts in Hplay, Hc.
  assert (Harm : forall d, defaultAnimation opts = Some d -> truthy d = true ->
                           (state v' ≫= armed) = Some (d, true)).
  { intros d Hd' Ht. rewrite Hst. simpl. unfold armed. rewrite Hc, Hd'. simpl.
    rewrite Ht. reflexivity. }
  exists v'. split; [exact Hr|]. split; [exact Hvis|]. split; [exact Hdef|].
  split; [exact Hcur|]. split; [|split].
  - intros Ha. rewrite Ha in Hplay. split; [exact Hplay|].
    intros Hv. unfold Stopped. rewrite Hvis. auto.
  - intros Ha. rewrite Ha in Hplay. split; [exact Hplay|].
    intros d Hd' Ht. split; [split; assumption|]. apply Harm; assumption.
  - intros Hi Hl Ha Hv. rewrite Ha in Hplay. simpl in Hplay.
    split; [split; assumption|]. split; [congruence|]. split; [exact Hplay|].
    apply Harm; [exact Hi|reflexivity].
Qed.

End Reset.

Section StoredOptions.
Context {E : Engine}.

(** No method and no handler assigns [this._opts]. *)
Lemma onComplete_opts (track loopCount : nat) (v : View) :
  _opts (view_of (onComplete track loopCount v)) = _opts v.
Proof.
  unfold onComplete, resetAnimation, setAnimationByName. exec.
  destruct (_isOnDefault v).
  + destruct (negb _); simpl; auto.
    destruct (js_truthy _); simpl; auto.
    destruct (state v); simpl; auto.
    destruct (findAnimation _ _); simpl; auto.
  + destruct (_currentAnimationOpts v) as [r|]; simpl; auto.
    destruct (negb _); simpl; auto.
    destruct (_ <=? 0)%Z; simpl.
    * destruct (Request.callback r); simpl;
      (destruct (js_truthy _); simpl; auto);
      (destruct (state v); simpl; auto);
      (destruct (findAnimation _ _); simpl; auto).
    * destruct (state v); simpl; auto.
      destruct (findAnimation _ _); simpl; auto.
Qed.

Lemma onEvent_opts (track : nat) (data : EventData) (v : View) :
  _opts (view_of (onEvent track data v)) = _opts v.
Proof.
  unfold onEvent. exec.
  destruct (negb _); simpl; auto.
  destruct (_currentAnimationOpts v) as [r|]; simpl; auto.
  destruct (Request.eventCallback r); simpl; auto.
Qed.

Lemma run_opts (op : Op) (v : View) : _opts (view_of (run op v)) = _opts v.
Proof.
  destruct op; simpl; try reflexivity.
  - unfold startAnimation, setAnimationByName. exec.
    destruct (state v); simpl; auto.
    destruct (findAnimation _ _); simpl; auto.
    destruct opts; reflexivity.
  - unfold resetAnimation, setAnimationByName. exec.
    destruct (js_truthy _); simpl; auto.
    destruct (state v); simpl; auto.
    destruct (findAnimation _ _); simpl; auto.
  - unfold resetAllAnimations. rewrite view_of_bind. simpl.
    rewrite view_of_bind.
    destruct (resolveJson_view (merge (default no_opts newOpts) (_opts v)) v)
      as [[j ->]| ->]; auto.
    destruct j as [j|]; simpl; auto.
    destruct (readSkeletonAttachments _ _ _) as [atts pool].
    unfold setAnimationByName. exec.
    destruct (js_truthy _); simpl; auto.
    destruct (findAnimation _ _); simpl; auto.
  - unfold getDuration. exec.
    destruct (skeletonData v); simpl; auto.
    destruct (findAnimation _ _); simpl; auto.
  - apply (tick_across (fun a b => _opts b = _opts a)); auto.
    + intros a b c Hab Hbc. congruence.
    + intros t n a. apply onComplete_opts.
    + intros t d a. apply onEvent_opts.
    + intros a. apply present_control.
  - apply onComplete_opts.
  - apply onEvent_opts.
Qed.

Lemma run_all_opts (ops : list Op) : forall v, _opts (run_all ops v) = _opts v.
Proof.
  induction ops as [|op ops IH]; intros v; simpl; [reflexivity|].
  rewrite IH. apply run_opts.
Qed.

(** C10. [resetAllAnimations newOpts] leaves the stored options as they
    were, and so does every other call, so they are the construction-time
    options for good.  After it, [resetAnimation] and the completion
    handler still go by those: with no default animation stored, the view
    stops, whatever default animation [newOpts] named; with one stored,
    that one is armed; and on the default state the handler re-arms
    exactly when the stored loop flag is not set. *)
Theorem resetAllAnimations_keeps_stored_options (newOpts : option Opts) (v v' : View) :
  resetAllAnimations newOpts v = Return tt v' ->
  _opts v' = _opts v /\
  (forall ops, _opts (run_all ops v') = _opts v) /\
  (js_truthy (defaultAnimation (_opts v)) = false ->
     exists v'', resetAnimation v' = Return tt v'' /\ Stopped v'') /\
  (forall d st a,
     defaultAnimation (_opts v) = Some d -> truthy d = true ->
     state v' = Some st -> findAnimation d (animations (st_data st)) = Some a ->
     exists v'', resetAnimation v' = Return tt v'' /\
                 (state v'' ≫= armed) = Some (d, true)) /\
  (_isOnDefault v' = true ->
     forall track loopCount,
       onComplete track loopCount v' =
       if js_truthy (loop (_opts v)) then Return tt v' else resetAnimation v').
Proof.
  intros Hr.
  assert (Ho : _opts v' = _opts v).
  { pose proof (run_opts (ResetAllAnimations newOpts) v) as H.
    simpl in H. rewrite Hr in H. exact H. }
  split; [exact Ho|]. split; [|split; [|split]].
  - intros ops. rewrite run_all_opts. exact Ho.
  - intros Hn. rewrite resetAnimation_without_default by (rewrite Ho; exact Hn).
    destruct (stopAnimation_returns v') as (v'' & Hs & Hst & _). eauto.
  - intros d st a Hd Ht Hst Ha. rewrite <- Ho in Hd.
    rewrite (resetAnimation_with_default v' d st a Hd Ht Hst Ha).
    eexists. split; [reflexivity|]. simpl. apply armed_record_call.
  - intros Hd track loopCount. unfold onComplete. exec.
    rewrite Hd, Ho. destruct (js_truthy (loop (_opts v))); reflexivity.
Qed.

End StoredOptions.

Section Duration.
Context {E : Engine}.

Lemma findAnimation_Some (name : string) (l : list Animation) (a : Animation) :
  findAnimation name l = Some a -> a ∈ l /\ anim_name a = name.
Proof.
  induction l as [|b l IH]; simpl; [discriminate|].
  destruct (String.eqb (anim_name b) name) eqn:Hb.
  - intros [= <-]. split; [left|]. apply String.eqb_eq. exact Hb.
  - intros H. destruct (IH H). split; [right|]; assumption.
Qed.

Lemma findAnimation_None (name : string) (l : list Animation) :
  findAnimation name l = None <-> (forall a, a ∈ l -> anim_name a <> name).
Proof.
  induction l as [|b l IH]; simpl.
  - split; [|reflexivity]. intros _ a Ha. inversion Ha.
  - destruct (String.eqb (anim_name b) name) eqn:Hb.
    + split; [discriminate|]. intros H. exfalso.
      apply (H b); [left|]. apply String.eqb_eq. exact Hb.
    + rewrite IH. split.
      * intros H a Ha. inversion Ha; subst; [|auto].
        apply String.eqb_neq. exact Hb.
      * intros H a Ha. apply H. right. exact Ha.
Qed.

(** C5 (amended). On a view with skeleton data, [getDuration name] throws
    "Animation not found" exactly when the data has no animation of that
    name; otherwise it returns [duration * 1000 * (30 / frameRate)] as it
    comes, not rounded: 1500 for a duration of 1.5 at frame rate 30. *)
Theorem getDuration_result (name : string) (v : View) (d : SkeletonData) :
  skeletonData v = Some d ->
  (getDuration name v = Throw (AnimationNotFound name) v <->
   (forall a, a ∈ animations d -> anim_name a <> name)) /\
  (forall a, findAnimation name (animations d) = Some a ->
     getDuration name v = Return (js_mul (duration a * 1000) (js_div 30 (frameRate v))) v /\
     (forall fr, frameRate v = Some fr -> ~ fr == 0 ->
        getDuration name v = Return (Some (duration a * 1000 * (30 / fr))) v) /\
     (duration a == 1.5 -> frameRate v = Some 30 ->
        exists q, getDuration name v = Return (Some q) v /\ q == 1500)).
Proof.
  intros Hd. unfold getDuration. exec. rewrite Hd. split.
  - rewrite <- findAnimation_None.
    destruct (findAnimation name (animations d)); simpl; split; congruence.
  - intros a ->. simpl. split; [reflexivity|]. split.
    + intros fr -> Hfr. simpl.
      destruct (Qeq_bool fr 0) eqn:Hz; [|reflexivity].
      apply Qeq_bool_eq in Hz. contradiction.
    + intros Hdur ->. simpl. eexists. split; [reflexivity|].
      rewrite Hdur. reflexivity.
Qed.

End Duration.

Section Ticking.
Context {E : Engine}.

Lemma present_slot_state (p : Pose) (i : nat) (s : Slot) (v : View) :
  state (view_of (present_slot p i s v)) = state v.
Proof.
  unfold present_slot.
  destruct (attachment s) as [[a|n]|]; exec; auto.
  destruct (rendererObjects v !! _); reflexivity.
Qed.

Lemma present_from_state (l : list Slot) :
  forall p i v, state (view_of (present_from p i l v)) = state v.
Proof.
  induction l as [|s l IH]; intros p i v; simpl; [reflexivity|].
  rewrite view_of_bind.
  pose proof (present_slot_state p i s v) as H.
  destruct (present_slot p i s v); simpl in H; auto.
  rewrite IH. exact H.
Qed.

Lemma present_state (v : View) : state (view_of (_present v)) = state v.
Proof.
  unfold _present. exec. destruct (skeleton v) as [sk|]; simpl; [|reflexivity].
  rewrite present_from_state. reflexivity.
Qed.

Lemma engineTime_of_app (l : list EngineCall) (c : EngineCall) :
  engineTime_of (l ++ [c]) ==
  engineTime_of l + match c with Update (Some d) => d | _ => 0 end.
Proof.
  induction l as [|c' l IH]; simpl.
  - destruct c as [| [d|] |]; simpl; ring.
  - destruct c' as [| [d'|] |]; simpl; rewrite IH; ring.
Qed.

End Ticking.

Section Completion.
Context {E : Engine}.

Lemma completions_last (k : nat) :
  forall v, completions (S k) v = view_of (onComplete 0 0 (completions k v)).
Proof.
  induction k as [|k IH]; intros v; [reflexivity|].
  change (completions (S (S k)) v) with (completions (S k) (view_of (onComplete 0 0 v))).
  rewrite IH. reflexivity.
Qed.

Lemma completions_add (m k : nat) :
  forall v, completions (k + m) v = completions m (completions k v).
Proof.
  induction k as [|k IH]; intros v; [reflexivity|]. simpl. apply IH.
Qed.

(** Counting down is exact on the integers that are doubles one and all:
    those up to 2^53 in size. *)
Lemma round_double_exact (m : Z) :
  (- 2 ^ 53 <= m <= 2 ^ 53)%Z -> round_double m = m.
Proof.
  intros Hm. unfold round_double.
  destruct (Z.ltb_spec (Z.abs m) (2 ^ 53)) as [_|Hge]; [reflexivity|].
  change (2 ^ 53)%Z with 9007199254740992%Z in *.
  assert (Hcase : m = 9007199254740992%Z \/ m = (- 9007199254740992)%Z) by lia.
  destruct Hcase as [-> | ->]; vm_compute; reflexivity.
Qed.

Lemma round_double_nonpos (m : Z) : (m <= 0)%Z -> (round_double m <= 0)%Z.
Proof.
  intros Hm. unfold round_double.
  destruct (Z.abs m <? 2 ^ 53)%Z; [exact Hm|].
  set (ulp := (2 ^ (Z.log2 (Z.abs m) - 52))%Z).
  assert (Hulp : (0 <= ulp)%Z) by (apply Z.pow_nonneg; lia).
  assert (Hq : (0 <= Z.abs m / ulp)%Z).
  { apply Z_div_nonneg_nonneg; lia. }
  set (q' := if (2 * (Z.abs m mod ulp) <? ulp)%Z then (Z.abs m / ulp)%Z
             else if (ulp <? 2 * (Z.abs m mod ulp))%Z then (Z.abs m / ulp + 1)%Z
             else if Z.even (Z.abs m / ulp) then (Z.abs m / ulp)%Z
                  else (Z.abs m / ulp + 1)%Z).
  assert (Hq' : (0 <= q')%Z).
  { unfold q'. repeat match goal with |- context [if ?b then _ else _] => destruct b end; lia. }
  assert (Hs : (Z.sgn m <= 0)%Z) by lia.
  nia.
Qed.

Lemma js_decrement_exact (n : Z) :
  (- 2 ^ 53 < n <= 2 ^ 53)%Z -> js_decrement n = (n - 1)%Z.
Proof. intros Hn. apply round_double_exact. lia. Qed.

Lemma onComplete_rearms (v w : View) (st0 : AnimationState) (r : Request.t) (m : Z)
    (k : nat) (a : Animation) :
  in_flight v st0 r m k w ->
  (1 < m <= 2 ^ 53)%Z ->
  findAnimation (Request.animationName r) (animations (st_data st0)) = Some a ->
  exists w', onComplete 0 0 w = Return tt w' /\ in_flight v st0 r (m - 1) (S k) w'.
Proof.
  intros (Ho & Hf & Hd & Hc & st & Hst & Hdata & Hcalls) Hm Ha.
  unfold onComplete, setAnimationByName. exec. rewrite Hd, Hc. simpl.
  rewrite js_decrement_exact by lia.
  destruct (Z.leb_spec (m - 1) 0) as [Hle|_]; [lia|].
  simpl. rewrite Hst, Hdata, Ha.
  eexists. split; [reflexivity|].
  unfold in_flight; simpl. repeat (split; [assumption || reflexivity|]).
  eexists. split; [reflexivity|]. simpl. split; [exact Hdata|].
  rewrite Hcalls, <- app_assoc. f_equal.
  symmetry. apply repeat_cons.
Qed.

Lemma onComplete_finishes (v w : View) (st0 : AnimationState) (r : Request.t) (k : nat) :
  in_flight v st0 r 1 k w ->
  (forall d, defaultAnimation (_opts v) = Some d -> truthy d = true ->
             findAnimation d (animations (st_data st0)) <> None) ->
  exists w',
    onComplete 0 0 w = Return tt w' /\
    _opts w' = _opts v /\
    fired w' = (fired v ++ match Request.callback r with
                           | Some cb => [Completed cb]
                           | None => []
                           end)%list /\
    _currentAnimationOpts w' = None /\
    _isOnDefault w' = true /\
    (forall d, defaultAnimation (_opts v) = Some d -> truthy d = true ->
       DefaultLoop w' /\ visible w' = true /\ (state w' ≫= armed) = Some (d, true)) /\
    (js_truthy (defaultAnimation (_opts v)) = false -> Stopped w').
Proof.
  intros (Ho & Hf & Hd & Hc & st & Hst & Hdata & Hcalls) Hdef.
  unfold onComplete. unfold bind at 1. unfold get at 1. rewrite Hd, Hc. simpl.
  unfold bind at 1. unfold modify at 1. simpl.
  set (w1 := set_currentAnimationOpts _ w).
  set (w2 := set_fired (fired w1 ++ match Request.callback r with
                                    | Some cb => [Completed cb]
                                    | None => []
                                    end) w1).
  assert (Hcb : (match Request.callback r with
                 | Some cb => invoke (Completed cb)
                 | None => ret tt
                 end) w1 = Return tt w2).
  { unfold w2. destruct (Request.callback r); exec; [reflexivity|].
    rewrite app_nil_r. destruct w; reflexivity. }
  unfold bind at 1. rewrite Hcb.
  assert (Ho2 : _opts w2 = _opts v) by exact Ho.
  assert (Hst2 : state w2 = Some st) by exact Hst.
  assert (Hf2 : fired w2 = (fired v ++ match Request.callback r with
                                       | Some cb => [Completed cb]
                                       | None => []
                                       end)%list).
  { unfold w2; simpl. rewrite Hf. reflexivity. }
  destruct (defaultAnimation (_opts v)) as [d|] eqn:Hda.
  - destruct (truthy d) eqn:Ht.
    + specialize (Hdef d eq_refl Ht). rewrite <- Hdata in Hdef.
      destruct (findAnimation d (animations (st_data st))) as [a|] eqn:Ha; [|congruence].
      rewrite <- Ho2 in Hda.
      rewrite (resetAnimation_with_default w2 d st a Hda Ht Hst2 Ha).
      eexists. split; [reflexivity|]. simpl.
      split; [exact Ho|]. split; [exact Hf2|]. split; [reflexivity|].
      split; [reflexivity|]. split.
      * intros d' [= <-] _. split; [split; reflexivity|]. split; [reflexivity|].
        apply armed_record_call.
      * rewrite Ht. discriminate.
    + rewrite resetAnimation_without_default by (rewrite Ho2, Hda; exact Ht).
      eexists. split; [reflexivity|]. simpl.
      split; [exact Ho|]. split; [exact Hf2|]. split; [reflexivity|].
      split; [reflexivity|]. split.
      * intros d' [= <-] Ht'. congruence.
      * intros _. unfold Stopped; simpl; auto.
  - rewrite resetAnimation_without_default by (rewrite Ho2, Hda; reflexivity).
    eexists. split; [reflexivity|]. simpl.
    split; [exact Ho|]. split; [exact Hf2|]. split; [reflexivity|].
    split; [reflexivity|]. split.
    + intros d' [=].
    + intros _. unfold Stopped; simpl; auto.
Qed.

(** A count that counting down leaves as it is stays for good. *)
Lemma onComplete_stalls (v w : View) (st0 : AnimationState) (r : Request.t) (m : Z)
    (k : nat) (a : Animation) :
  in_flight v st0 r m k w ->
  js_decrement m = m -> (0 < m)%Z ->
  findAnimation (Request.animationName r) (animations (st_data st0)) = Some a ->
  exists w', onComplete 0 0 w = Return tt w' /\ in_flight v st0 r m (S k) w'.
Proof.
  intros (Ho & Hf & Hd & Hc & st & Hst & Hdata & Hcalls) Hm Hpos Ha.
  unfold onComplete, setAnimationByName. exec. rewrite Hd, Hc. simpl.
  rewrite Hm.
  destruct (Z.leb_spec m 0) as [Hle|_]; [lia|].
  simpl. rewrite Hst, Hdata, Ha.
  eexists. split; [reflexivity|].
  unfold in_flight; simpl. repeat (split; [assumption || reflexivity|]).
  eexists. split; [reflexivity|]. simpl. split; [exact Hdata|].
  rewrite Hcalls, <- app_assoc. f_equal.
  symmetry. apply repeat_cons.
Qed.

(** On its default state the view calls nobody back when a cycle
    completes, and stays on its default state. *)
Lemma onComplete_on_default (w : View) :
  _isOnDefault w = true ->
  _isOnDefault (view_of (onComplete 0 0 w)) = true /\
  fired (view_of (onComplete 0 0 w)) = fired w.
Proof.
  intros Hd. unfold onComplete, resetAnimation, setAnimationByName. exec.
  rewrite Hd. destruct (negb _); simpl; auto.
  destruct (js_truthy _); simpl; auto.
  destruct (state w); simpl; auto.
  destruct (findAnimation _ _); simpl; auto.
Qed.

Lemma completions_on_default (m : nat) :
  forall w, _isOnDefault w = true ->
            _isOnDefault (completions m w) = true /\ fired (completions m w) = fired w.
Proof.
  induction m as [|m IH]; intros w Hd; simpl; [auto|].
  destruct (onComplete_on_default w Hd) as [Hd' Hf'].
  destruct (IH _ Hd') as [Hd'' Hf'']. split; [exact Hd''|congruence].
Qed.

Lemma startAnimation_returns (v : View) (st : AnimationState) (name : string)
    (a : Animation) (opts : option StartOpts.t) :
  state v = Some st ->
  findAnimation name (animations (st_data st)) = Some a ->
  let lp := match opts with Some o => js_truthy (StartOpts.loop o) | None => false end in
  let r := {| Request.iterations :=
                match opts with Some o => js_or (StartOpts.iterations o) 1%Z | None => 1%Z end;
              Request.callback := opts ≫= StartOpts.callback;
              Request.eventCallback := opts ≫= StartOpts.eventCallback;
              Request.loop := lp;
              Request.animationName := name |} in
  exists v0,
    startAnimation name opts v = Return tt v0 /\
    _opts v0 = _opts v /\ fired v0 = fired v /\
    visible v0 = true /\ _isPlaying v0 = true /\ _isOnDefault v0 = false /\
    _currentAnimationOpts v0 = Some r /\
    state v0 = Some (record_call (SetAnimationByName 0 name lp) st).
Proof.
  intros Hst Ha lp r. unfold startAnimation, setAnimationByName. exec.
  rewrite Hst, Ha. unfold r, lp.
  destruct opts as [o|]; simpl; rewrite ?js_or_false;
    (eexists; split; [reflexivity|]; simpl; auto 10).
Qed.


End Completion.

Section Abandon.
Context {E : Engine}.

Arguments request_callback : simpl never.

Ltac conclude H :=
  match goal with
  | |- ex (fun _ => _ /\ _ /\ (forall cb, request_callback ?w = _ -> _)) => apply (H w)
  end.

(** A handler fires nothing but the callbacks of the request in flight,
    and leaves that request in flight or none. *)
Lemma handler_fired (op : Op) (v : View) :
  match op with Complete _ _ | Notify _ _ => True | _ => False end ->
  exists extra,
    fired (view_of (run op v)) = (fired v ++ extra)%list /\
    (forall cb, Completed cb ∈ extra -> request_callback v = Some cb) /\
    (forall cb, request_callback (view_of (run op v)) = Some cb ->
                request_callback v = Some cb \/ starts_with cb op).
Proof.
  assert (Hnil : forall w : View,
            fired w = fired v ->
            (forall cb, request_callback w = Some cb ->
                        request_callback v = Some cb \/ starts_with cb op) ->
            exists extra,
              fired w = (fired v ++ extra)%list /\
              (forall cb, Completed cb ∈ extra -> request_callback v = Some cb) /\
              (forall cb, request_callback w = Some cb ->
                          request_callback v = Some cb \/ starts_with cb op)).
  { intros w Hf Hc. exists []. rewrite app_nil_r. split; [exact Hf|].
    split; [|exact Hc]. intros cb Hin. inversion Hin. }
  assert (Hsame : forall w : View, same_control v w ->
            exists extra,
              fired w = (fired v ++ extra)%list /\
              (forall cb, Completed cb ∈ extra -> request_callback v = Some cb) /\
              (forall cb, request_callback w = Some cb ->
                          request_callback v = Some cb \/ starts_with cb op)).
  { intros w (_ & _ & _ & _ & Hc & _ & Hf). apply Hnil; [exact Hf|].
    unfold request_callback. rewrite Hc. auto. }
  assert (Hcur : forall w : View, fired w = fired v ->
            _currentAnimationOpts w = None ->
            exists extra,
              fired w = (fired v ++ extra)%list /\
              (forall cb, Completed cb ∈ extra -> request_callback v = Some cb) /\
              (forall cb, request_callback w = Some cb ->
                          request_callback v = Some cb \/ starts_with cb op)).
  { intros w Hf Hc. apply Hnil; [exact Hf|].
    unfold request_callback. rewrite Hc. discriminate. }
  destruct op; simpl; try contradiction; intros _.
  - unfold onComplete, resetAnimation, setAnimationByName. exec.
    destruct (_isOnDefault v) eqn:Hd.
    + destruct (negb _); simpl; [|conclude Hsame; apply same_control_refl].
      destruct (js_truthy _); simpl; [|conclude Hcur; reflexivity].
      destruct (state v); simpl; [|conclude Hsame; apply same_control_refl].
      destruct (findAnimation _ _); simpl; [|conclude Hsame; apply same_control_refl].
      conclude Hcur; reflexivity.
    + destruct (_currentAnimationOpts v) as [r|] eqn:Hr; simpl;
        [|conclude Hsame; apply same_control_refl].
      assert (Hkeep : forall w : View, fired w = fired v ->
                (_currentAnimationOpts w ≫= Request.callback) = Request.callback r ->
                exists extra,
                  fired w = (fired v ++ extra)%list /\
                  (forall cb, Completed cb ∈ extra -> request_callback v = Some cb) /\
                  (forall cb, request_callback w = Some cb ->
                              request_callback v = Some cb \/ starts_with cb (Complete track loopCount))).
      { intros w Hf Hc. apply Hnil; [exact Hf|].
        unfold request_callback. rewrite Hc, Hr. simpl. auto. }
      destruct (negb _); simpl; [|conclude Hsame; apply same_control_refl].
      destruct (_ <=? 0)%Z; simpl.
      * destruct (Request.callback r) as [cb0|] eqn:Hcb0; simpl.
        -- assert (Hone : forall w : View, fired w = (fired v ++ [Completed cb0])%list ->
                     request_callback w = None \/ request_callback w = Some cb0 ->
                     exists extra,
                       fired w = (fired v ++ extra)%list /\
                       (forall cb, Completed cb ∈ extra -> request_callback v = Some cb) /\
                       (forall cb, request_callback w = Some cb ->
                            request_callback v = Some cb \/
                            starts_with cb (Complete track loopCount))).
           { intros w Hf Hc. exists [Completed cb0]. split; [exact Hf|].
             assert (Hv : request_callback v = Some cb0)
               by (unfold request_callback; rewrite Hr; exact Hcb0).
             split.
             - intros cb Hin. apply list_elem_of_singleton in Hin.
               injection Hin as ->. exact Hv.
             - intros cb Hcb. left. destruct Hc as [Hc|Hc]; congruence. }
           destruct (js_truthy _); simpl; [|conclude Hone; [reflexivity|left; reflexivity]].
           destruct (state v); simpl;
             [|conclude Hone; [reflexivity|right; reflexivity]].
           destruct (findAnimation _ _); simpl;
             [conclude Hone; [reflexivity|left; reflexivity]
             |conclude Hone; [reflexivity|right; reflexivity]].
        -- destruct (js_truthy _); simpl; [|conclude Hcur; [reflexivity|reflexivity]].
           destruct (state v); simpl;
             [|conclude Hkeep; [reflexivity|reflexivity]].
           destruct (findAnimation _ _); simpl;
             [conclude Hcur; [reflexivity|reflexivity]
             |conclude Hkeep; [reflexivity|reflexivity]].
      * destruct (state v); simpl; [|conclude Hkeep; reflexivity].
        destruct (findAnimation _ _); simpl; conclude Hkeep; reflexivity.
  - unfold onEvent. exec.
    destruct (negb _); simpl; [|conclude Hsame; apply same_control_refl].
    destruct (_currentAnimationOpts v) as [r|] eqn:Hr; simpl;
      [|conclude Hsame; apply same_control_refl].
    destruct (Request.eventCallback r) as [cb0|]; simpl;
      [|conclude Hsame; apply same_control_refl].
    exists [Event cb0 data]. split; [reflexivity|]. split.
    + intros cb Hin. apply list_elem_of_singleton in Hin. discriminate.
    + intros cb Hcb. left. exact Hcb.
Qed.


Lemma own_callback_only_refl (v : View) : own_callback_only v v.
Proof.
  exists []. rewrite app_nil_r. split; [reflexivity|]. split; [|auto].
  intros cb Hin. inversion Hin.
Qed.

Lemma own_callback_only_trans (a b c : View) :
  own_callback_only a b -> own_callback_only b c -> own_callback_only a c.
Proof.
  intros (e1 & Hf1 & Hin1 & Hc1) (e2 & Hf2 & Hin2 & Hc2).
  exists (e1 ++ e2)%list. split; [rewrite Hf2, Hf1, app_assoc; reflexivity|]. split.
  - intros cb Hin. apply elem_of_app in Hin as [Hin|Hin]; auto.
  - intros cb Hcb. auto.
Qed.

Lemma own_callback_only_same (v w : View) : same_control v w -> own_callback_only v w.
Proof.
  intros (_ & _ & _ & _ & Hc & _ & Hf).
  exists []. rewrite app_nil_r. split; [exact Hf|]. split.
  - intros cb Hin. inversion Hin.
  - unfold request_callback. rewrite Hc. auto.
Qed.

Lemma handler_own_callback_only (op : Op) (v : View) :
  match op with Complete _ _ | Notify _ _ => True | _ => False end ->
  own_callback_only v (view_of (run op v)).
Proof.
  intros Hop. destruct (handler_fired op v Hop) as (extra & Hf & Hin & Hc).
  exists extra. split; [exact Hf|]. split; [exact Hin|].
  intros cb Hcb. destruct (Hc cb Hcb) as [H|(name & o & Hs & _)]; [exact H|].
  destruct op; try contradiction; discriminate.
Qed.

Lemma tick_own_callback_only (dt : Q) (v : View) :
  own_callback_only v (view_of (tick dt v)).
Proof.
  apply (tick_across own_callback_only).
  - apply own_callback_only_refl.
  - apply own_callback_only_trans.
  - intros s a. apply own_callback_only_same. unfold same_control; simpl; auto 10.
  - intros s a. apply own_callback_only_same. unfold same_control; simpl; auto 10.
  - intros t n a. apply (handler_own_callback_only (Complete t n) a I).
  - intros t d a. apply (handler_own_callback_only (Notify t d) a I).
  - intros a. apply own_callback_only_same, present_control.
Qed.

(** A call fires nothing but the completion callback of the request in
    flight, and the request it leaves in flight is the one it found or
    the one it started. *)
Lemma run_fired (op : Op) (v : View) :
  exists extra,
    fired (view_of (run op v)) = (fired v ++ extra)%list /\
    (forall cb, Completed cb ∈ extra -> request_callback v = Some cb) /\
    (forall cb, request_callback (view_of (run op v)) = Some cb ->
                request_callback v = Some cb \/ starts_with cb op).
Proof.
  assert (Hnil : forall w : View,
            fired w = fired v ->
            (forall cb, request_callback w = Some cb ->
                        request_callback v = Some cb \/ starts_with cb op) ->
            exists extra,
              fired w = (fired v ++ extra)%list /\
              (forall cb, Completed cb ∈ extra -> request_callback v = Some cb) /\
              (forall cb, request_callback w = Some cb ->
                          request_callback v = Some cb \/ starts_with cb op)).
  { intros w Hf Hc. exists []. rewrite app_nil_r. split; [exact Hf|].
    split; [|exact Hc]. intros cb Hin. inversion Hin. }
  assert (Hsame : forall w : View, same_control v w ->
            exists extra,
              fired w = (fired v ++ extra)%list /\
              (forall cb, Completed cb ∈ extra -> request_callback v = Some cb) /\
              (forall cb, request_callback w = Some cb ->
                          request_callback v = Some cb \/ starts_with cb op)).
  { intros w (_ & _ & _ & _ & Hc & _ & Hf). apply Hnil; [exact Hf|].
    unfold request_callback. rewrite Hc. auto. }
  assert (Hcur : forall w : View, fired w = fired v ->
            _currentAnimationOpts w = None ->
            exists extra,
              fired w = (fired v ++ extra)%list /\
              (forall cb, Completed cb ∈ extra -> request_callback v = Some cb) /\
              (forall cb, request_callback w = Some cb ->
                          request_callback v = Some cb \/ starts_with cb op)).
  { intros w Hf Hc. apply Hnil; [exact Hf|].
    unfold request_callback. rewrite Hc. discriminate. }
  destruct op; simpl.
  - unfold startAnimation, setAnimationByName. exec.
    destruct (state v); simpl; [|conclude Hsame; apply same_control_refl].
    destruct (findAnimation _ _); simpl; [|conclude Hsame; apply same_control_refl].
    conclude Hnil; [destruct opts; reflexivity|].
    intros cb Hcb. right. destruct opts as [o|]; [|discriminate].
    exists name, o. split; [reflexivity|exact Hcb].
  - conclude Hcur; reflexivity.
  - unfold resetAnimation, setAnimationByName. exec.
    destruct (js_truthy _); simpl; [|conclude Hcur; reflexivity].
    destruct (state v); simpl; [|conclude Hsame; apply same_control_refl].
    destruct (findAnimation _ _); simpl; [|conclude Hsame; apply same_control_refl].
    conclude Hcur; reflexivity.
  - conclude Hnil; [reflexivity|intros cb Hcb; left; exact Hcb].
  - conclude Hnil; [reflexivity|intros cb Hcb; left; exact Hcb].
  - conclude Hnil; [reflexivity|intros cb Hcb; left; exact Hcb].
  - unfold resetAllAnimations. rewrite view_of_bind. simpl.
    rewrite view_of_bind.
    destruct (resolveJson_view (merge (default no_opts newOpts) (_opts v)) v)
      as [[j ->]| ->]; [|conclude Hsame; apply same_control_refl].
    destruct j as [j|]; simpl; [|conclude Hsame; apply same_control_refl].
    destruct (readSkeletonAttachments _ _ _) as [atts pool].
    unfold setAnimationByName. exec.
    destruct (js_truthy _); simpl; [|conclude Hcur; reflexivity].
    destruct (findAnimation _ _); simpl; [conclude Hcur; reflexivity|].
    conclude Hsame; unfold same_control; simpl; auto 10.
  - unfold getDuration. exec.
    destruct (skeletonData v); simpl; [|conclude Hsame; apply same_control_refl].
    destruct (findAnimation _ _); simpl; conclude Hsame; apply same_control_refl.
  - destruct (tick_own_callback_only dt v) as (extra & Hf & Hin & Hc).
    exists extra. split; [exact Hf|]. split; [exact Hin|]. auto.
  - apply (handler_fired (Complete track loopCount) v I).
  - apply (handler_fired (Notify track data) v I).
Qed.

Lemma run_all_fired (ops : list Op) :
  forall v, exists extra,
    fired (run_all ops v) = (fired v ++ extra)%list /\
    (forall cb, Completed cb ∈ extra ->
                request_callback v = Some cb \/ exists op, op ∈ ops /\ starts_with cb op).
Proof.
  induction ops as [|op ops IH]; intros v; simpl.
  - exists []. rewrite app_nil_r. split; [reflexivity|]. intros cb Hin. inversion Hin.
  - destruct (run_fired op v) as (e1 & Hf1 & Hin1 & Hc1).
    destruct (IH (view_of (run op v))) as (e2 & Hf2 & Hin2).
    exists (e1 ++ e2)%list. split; [rewrite Hf2, Hf1, app_assoc; reflexivity|].
    intros cb Hin. apply elem_of_app in Hin as [Hin|Hin].
    + left. apply Hin1. exact Hin.
    + destruct (Hin2 cb Hin) as [Hc|(op' & Hop & Hs)].
      * destruct (Hc1 cb Hc) as [Hc'|Hs]; [left; exact Hc'|].
        right. exists op. split; [left|exact Hs].
      * right. exists op'. split; [right; exact Hop|exact Hs].
Qed.

Lemma startAnimation_inv (name : string) (opts : option StartOpts.t) (v v' : View) :
  startAnimation name opts v = Return tt v' ->
  exists st a, state v = Some st /\ findAnimation name (animations (st_data st)) = Some a.
Proof.
  unfold startAnimation, setAnimationByName. exec.
  destruct (state v) as [st|]; [|discriminate].
  destruct (findAnimation _ _) as [a|] eqn:Ha; [|discriminate].
  intros _. exists st, a. split; [reflexivity|exact Ha].
Qed.

(** C6. When [startAnimation] overwrites a request in flight (left by an
    earlier [startAnimation], whatever count it has left), the new request
    takes its place with its own count and callbacks, and the completion
    callback of the old one is not called then nor by anything that
    happens later, unless a later call hands the same callback in
    again. *)
Theorem abandoned_request_never_completes (v1 v2 : View) (r1 : Request.t) (cb : Callback)
    (name : string) (opts : option StartOpts.t) (ops : list Op) :
  _currentAnimationOpts v1 = Some r1 ->
  Request.callback r1 = Some cb ->
  startAnimation name opts v1 = Return tt v2 ->
  opts ≫= StartOpts.callback <> Some cb ->
  (forall op, op ∈ ops -> ~ starts_with cb op) ->
  fired v2 = fired v1 /\
  _currentAnimationOpts v2 =
    Some {| Request.iterations :=
              match opts with Some o => js_or (StartOpts.iterations o) 1%Z | None => 1%Z end;
            Request.callback := opts ≫= StartOpts.callback;
            Request.eventCallback := opts ≫= StartOpts.eventCallback;
            Request.loop :=
              match opts with Some o => js_truthy (StartOpts.loop o) | None => false end;
            Request.animationName := name |} /\
  exists extra,
    fired (run_all ops v2) = (fired v1 ++ extra)%list /\
    Completed cb ∉ extra.
Proof.
  intros Hr1 Hcb Hs Hnew Hops.
  destruct (startAnimation_inv name opts v1 v2 Hs) as (st & a & Hst & Ha).
  destruct (startAnimation_returns v1 st name a opts Hst Ha)
    as (v0 & Hs' & _ & Hf & _ & _ & _ & Hc & _).
  rewrite Hs in Hs'. injection Hs' as <-.
  split; [exact Hf|]. split; [exact Hc|].
  destruct (run_all_fired ops v2) as (extra & Hfe & Hin).
  exists extra. split; [rewrite Hfe, Hf; reflexivity|].
  intros Hbad. destruct (Hin cb Hbad) as [Hreq|(op & Hop & Hsw)].
  - unfold request_callback in Hreq. rewrite Hc in Hreq. simpl in Hreq. contradiction.
  - exact (Hops op Hop Hsw).
Qed.

End Abandon.

Section Presenter.
Context {E : Engine}.

Lemma pool_ok_cons (s : Slot) (l : list Slot) (pool : list ImageView) :
  pool_ok (s :: l) pool ->
  (forall a, attachment s = Some (Region a) ->
             (RegionAttachment.rendererObject a < length pool)%nat) /\
  pool_ok l pool.
Proof.
  intros H. split.
  - intros a Ha. apply (H s a); [left|exact Ha].
  - intros s' a Hin Ha. apply (H s' a); [right; exact Hin|exact Ha].
Qed.

Lemma paint_slot_length (p : Pose) (i : nat) (s : Slot) (pool : list ImageView) :
  length (paint_slot p i s pool) = length pool.
Proof.
  unfold paint_slot. destruct (attachment s) as [[a|n]|]; try reflexivity.
  destruct (pool !! _); [apply length_insert|reflexivity].
Qed.

Lemma paint_length (l : list Slot) :
  forall p i pool, length (paint p i l pool) = length pool.
Proof.
  induction l as [|s l IH]; intros p i pool; simpl; [reflexivity|].
  rewrite IH. apply paint_slot_length.
Qed.

(** The loop of the source does to the view what [paint] does to the
    pool, and returns, if every image it needs is there. *)
Lemma present_slot_paint (p : Pose) (i : nat) (s : Slot) (v : View) :
  (forall a, attachment s = Some (Region a) ->
             (RegionAttachment.rendererObject a < length (rendererObjects v))%nat) ->
  present_slot p i s v =
  Return tt (set_rendererObjects (paint_slot p i s (rendererObjects v)) v).
Proof.
  intros Hok. unfold present_slot, paint_slot.
  destruct (attachment s) as [[a|n]|]; exec; try (destruct v; reflexivity).
  destruct (lookup_lt_is_Some_2 _ _ (Hok a eq_refl)) as [img Himg].
  rewrite Himg. reflexivity.
Qed.

Lemma present_from_paint (l : list Slot) :
  forall p i v,
    pool_ok l (rendererObjects v) ->
    present_from p i l v =
    Return tt (set_rendererObjects (paint p i l (rendererObjects v)) v).
Proof.
  induction l as [|s l IH]; intros p i v Hok; simpl.
  - unfold ret. destruct v; reflexivity.
  - apply pool_ok_cons in Hok as [Hs Hl].
    unfold bind. rewrite (present_slot_paint p i s v Hs).
    rewrite IH; [reflexivity|].
    intros s' a Hin Ha. simpl. rewrite paint_slot_length. exact (Hl s' a Hin Ha).
Qed.

Lemma with_style_twice (st st' : Style.t) (o : option ImageView) :
  with_style (fun _ => st) <$> (with_style (fun _ => st') <$> o) =
  with_style (fun _ => st) <$> o.
Proof. destruct o; reflexivity. Qed.

Lemma paint_slot_lookup (p : Pose) (i : nat) (s : Slot) (pool : list ImageView) (k : nat) :
  paint_slot p i s pool !! k =
  match attachment s with
  | Some (Region a) =>
      if decide (RegionAttachment.rendererObject a = k)
      then with_style (fun _ => region_style (worldBone p (bone s)) a i) <$> pool !! k
      else pool !! k
  | _ => pool !! k
  end.
Proof.
  unfold paint_slot. destruct (attachment s) as [[a|n]|]; try reflexivity.
  destruct (decide (RegionAttachment.rendererObject a = k)) as [<-|Hne].
  - destruct (pool !! RegionAttachment.rendererObject a) as [img|] eqn:Himg.
    + rewrite list_lookup_insert_eq by (eapply lookup_lt_Some; exact Himg).
      reflexivity.
    + rewrite Himg. reflexivity.
  - destruct (pool !! RegionAttachment.rendererObject a) as [img|]; [|reflexivity].
    apply list_lookup_insert_ne. exact Hne.
Qed.

Lemma paint_lookup (l : list Slot) :
  forall p i pool k,
    paint p i l pool !! k =
    match placed p i l k with
    | Some st => with_style (fun _ => st) <$> pool !! k
    | None => pool !! k
    end.
Proof.
  induction l as [|s l IH]; intros p i pool k; simpl; [reflexivity|].
  rewrite IH, paint_slot_lookup.
  destruct (placed p (S i) l k) as [st|].
  - destruct (attachment s) as [[a|n]|]; try reflexivity.
    destruct (decide _); [apply with_style_twice|reflexivity].
  - destruct (attachment s) as [[a|n]|]; try reflexivity.
    destruct (decide _); reflexivity.
Qed.

Lemma placed_None (l : list Slot) :
  forall p i k,
    placed p i l k = None <->
    (forall j s a, shows l j s a -> RegionAttachment.rendererObject a <> k).
Proof.
  induction l as [|s0 l IH]; intros p i k; simpl.
  - split; [|reflexivity]. intros _ j s a [Hj _]. destruct j; discriminate.
  - split.
    + intros H j s a [Hj Ha]. destruct (placed p (S i) l k) eqn:Hp; [discriminate|].
      destruct j as [|j]; simpl in Hj.
      * injection Hj as ->. rewrite Ha in H. destruct (decide _); [discriminate|assumption].
      * apply (proj1 (IH p (S i) k) Hp j s a). split; assumption.
    + intros H.
      rewrite (proj2 (IH p (S i) k)).
      * destruct (attachment s0) as [[a|n]|] eqn:Ha; try reflexivity.
        destruct (decide _) as [Heq|]; [|reflexivity].
        exfalso. apply (H 0%nat s0 a); [split; [reflexivity|exact Ha]|exact Heq].
      * intros j s a [Hj Ha]. apply (H (S j) s a). split; assumption.
Qed.

Lemma placed_Some (l : list Slot) :
  forall p i k st,
    placed p i l k = Some st ->
    exists j s a,
      shows l j s a /\ RegionAttachment.rendererObject a = k /\ last_on l j k /\
      st = region_style (worldBone p (bone s)) a (i + j).
Proof.
  induction l as [|s0 l IH]; intros p i k st; simpl; [discriminate|].
  destruct (placed p (S i) l k) as [st'|] eqn:Hp.
  - intros [= <-]. destruct (IH p (S i) k st' Hp) as (j & s & a & [Hj Ha] & Hk & Hlast & Hst).
    exists (S j), s, a. split; [split; assumption|]. split; [exact Hk|]. split.
    + intros j' s' a' Hlt [Hj' Ha']. destruct j' as [|j']; [lia|].
      apply (Hlast j' s' a'); [lia|split; assumption].
    + rewrite Hst. f_equal. lia.
  - destruct (attachment s0) as [[a|n]|] eqn:Ha; try discriminate.
    destruct (decide _) as [Heq|]; [|discriminate].
    intros [= <-]. exists 0%nat, s0, a. split; [split; [reflexivity|exact Ha]|].
    split; [exact Heq|]. split.
    + intros j' s' a' Hlt [Hj' Ha']. destruct j' as [|j']; [lia|].
      apply (proj1 (placed_None l p (S i) k) Hp j' s' a'). split; assumption.
    + f_equal. lia.
Qed.

Lemma placed_last (l : list Slot) :
  forall p i j s a,
    shows l j s a ->
    last_on l j (RegionAttachment.rendererObject a) ->
    placed p i l (RegionAttachment.rendererObject a) =
    Some (region_style (worldBone p (bone s)) a (i + j)).
Proof.
  intros p i j s a Hs Hlast.
  destruct (placed p i l (RegionAttachment.rendererObject a)) as [st|] eqn:Hp.
  - destruct (placed_Some l p i _ st Hp) as (j' & s' & a' & Hs' & Hk & Hlast' & ->).
    destruct (Nat.lt_trichotomy j j') as [Hlt|[Heq|Hgt]].
    + exfalso. exact (Hlast j' s' a' Hlt Hs' Hk).
    + subst j'. destruct Hs as [Hj Ha], Hs' as [Hj' Ha'].
      rewrite Hj in Hj'. injection Hj' as <-. rewrite Ha in Ha'. injection Ha' as <-.
      reflexivity.
    + exfalso. exact (Hlast' j s a Hgt Hs eq_refl).
  - exfalso. exact (proj1 (placed_None l p i _) Hp j s a Hs eq_refl).
Qed.

Lemma present_returns (v : View) (sk : Skeleton Pose) :
  skeleton v = Some sk ->
  pool_ok (drawOrder sk) (rendererObjects v) ->
  let posed := {| pose := updateWorldTransform (pose sk); drawOrder := drawOrder sk |} in
  _present v =
  Return tt
    (set_rendererObjects
       (paint (pose posed) 0 (drawOrder sk)
          (map (with_style Style.hide) (rendererObjects v)))
       (set_skeleton (Some posed) v)).
Proof.
  intros Hsk Hok posed. unfold _present.
  unfold bind at 1. unfold get at 1. rewrite Hsk.
  unfold bind at 1. unfold modify at 1. unfold bind at 1. unfold modify at 1.
  rewrite present_from_paint; [reflexivity|].
  intros s a Hin Ha. simpl. rewrite length_map. exact (Hok s a Hin Ha).
Qed.

Lemma paint_shown_exactly (l : list Slot) (p : Pose) (pool : list ImageView) :
  shown_exactly l (paint p 0 l (map (with_style Style.hide) pool)).
Proof.
  intros k img. rewrite paint_lookup, list_lookup_fmap.
  destruct (placed p 0 l k) as [st|] eqn:Hp.
  - destruct (placed_Some l p 0 k st Hp) as (j & s & a & Hs & Hk & Hlast & Hst).
    destruct (pool !! k) as [img0|]; [|discriminate]. simpl. intros [= <-]. simpl.
    split.
    + split; [intros _; exists j, s, a; auto|intros _; rewrite Hst; reflexivity].
    + intros j' s' a' Hs' Hk' Hlast'.
      rewrite <- Hk' in Hp, Hlast'.
      rewrite (placed_last l p 0 j' s' a' Hs' Hlast') in Hp.
      injection Hp as <-. reflexivity.
  - pose proof (proj1 (placed_None l p 0 k) Hp) as Hnone.
    destruct (pool !! k) as [img0|]; [|discriminate]. simpl. intros [= <-]. simpl.
    split.
    + split; [discriminate|]. intros (j & s & a & Hs & Hk). exfalso.
      exact (Hnone j s a Hs Hk).
    + intros j s a Hs Hk _. exfalso. exact (Hnone j s a Hs Hk).
Qed.

(** C3. The presenter gives the image of every region attachment in the
    draw order (of the entry that draws on it last, should several share
    an image) the size of the attachment scaled by the bone, the rotation
    [-(bone.worldRotation + attachment.rotation) * (Math.PI / 180)], its
    half size as anchor, and as position the attachment's offset taken
    through the bone's matrix and moved to the bone, less the half size.
    A bone at (100, 50) with rotation 0 and scale (1, 1) and an attachment
    at offset (0, 0) with rotation 0 and size 40 by 60 give position
    (80, 20), size 40 by 60 and rotation 0. *)
Theorem region_attachment_geometry :
  (forall (v : View) (sk : Skeleton Pose) (j : nat) (s : Slot) (a : RegionAttachment.t),
     skeleton v = Some sk ->
     pool_ok (drawOrder sk) (rendererObjects v) ->
     shows (drawOrder sk) j s a ->
     last_on (drawOrder sk) j (RegionAttachment.rendererObject a) ->
     exists v' img,
       _present v = Return tt v' /\
       rendererObjects v' !! RegionAttachment.rendererObject a = Some img /\
       let b := worldBone (updateWorldTransform (pose sk)) (bone s) in
       let w := RegionAttachment.width a * Bone.worldScaleX b in
       let h := RegionAttachment.height a * Bone.worldScaleY b in
       Style.width (style img) = w /\
       Style.height (style img) = h /\
       Style.r (style img) =
         - (Bone.worldRotation b + RegionAttachment.rotation a) * (Math_PI / 180) /\
       Style.anchorX (style img) = w / 2 /\
       Style.anchorY (style img) = h / 2 /\
       Style.x (style img) =
         Bone.worldX b + RegionAttachment.x a * Bone.m00 b
         + RegionAttachment.y a * Bone.m01 b - w / 2 /\
       Style.y (style img) =
         Bone.worldY b + RegionAttachment.x a * Bone.m10 b
         + RegionAttachment.y a * Bone.m11 b - h / 2 /\
       Style.visible (style img) = true /\
       Style.zIndex (style img) = j) /\
  (forall (m00 m01 m10 m11 : Q) (name : string) (k i : nat),
     let st := region_style (Bone.mk 100 50 0 1 1 m00 m01 m10 m11)
                            (RegionAttachment.mk name k 0 0 0 40 60) i in
     Style.x st == 80 /\ Style.y st == 20 /\
     Style.width st == 40 /\ Style.height st == 60 /\ Style.r st == 0).
Proof.
  split.
  - intros v sk j s a Hsk Hok Hs Hlast.
    rewrite (present_returns v sk Hsk Hok). simpl.
    destruct (lookup_lt_is_Some_2 (rendererObjects v) (RegionAttachment.rendererObject a))
      as [img0 Himg0].
    { destruct Hs as [Hj Ha]. apply (Hok s a); [|exact Ha].
      apply list_elem_of_lookup. exists j. exact Hj. }
    eexists. exists (with_style (fun _ => region_style
                       (worldBone (updateWorldTransform (pose sk)) (bone s)) a j) img0).
    split; [reflexivity|]. split.
    + simpl.
      rewrite paint_lookup, (placed_last _ _ 0 j s a Hs Hlast), list_lookup_fmap, Himg0.
      reflexivity.
    + simpl. repeat split; reflexivity.
  - intros m00 m01 m10 m11 name k i. simpl.
    repeat split; unfold Math_PI; field.
Qed.

(** C4. After a presentation pass, and so after every tick, an image of
    the pool is visible exactly when a region-type entry of the draw order
    draws on it, every other image being hidden, and a visible image has
    as z-index the index of its entry in the draw order (of the last one,
    should several entries share an image). *)
Theorem presentation_pass_visibility :
  (forall (v : View) (sk : Skeleton Pose),
     skeleton v = Some sk ->
     pool_ok (drawOrder sk) (rendererObjects v) ->
     exists v',
       _present v = Return tt v' /\
       drawOrder <$> skeleton v' = Some (drawOrder sk) /\
       length (rendererObjects v') = length (rendererObjects v) /\
       shown_exactly (drawOrder sk) (rendererObjects v')) /\
  (forall (dt : Q) (v v1 : View) (sk : Skeleton Pose),
     advance dt v = Return tt v1 ->
     skeleton v1 = Some sk ->
     pool_ok (drawOrder sk) (rendererObjects v1) ->
     exists v',
       tick dt v = Return tt v' /\
       drawOrder <$> skeleton v' = Some (drawOrder sk) /\
       length (rendererObjects v') = length (rendererObjects v) /\
       shown_exactly (drawOrder sk) (rendererObjects v')).
Proof.
  assert (Hp : forall (v : View) (sk : Skeleton Pose),
     skeleton v = Some sk ->
     pool_ok (drawOrder sk) (rendererObjects v) ->
     exists v',
       _present v = Return tt v' /\
       drawOrder <$> skeleton v' = Some (drawOrder sk) /\
       length (rendererObjects v') = length (rendererObjects v) /\
       shown_exactly (drawOrder sk) (rendererObjects v')).
  { intros v sk Hsk Hok. rewrite (present_returns v sk Hsk Hok).
    eexists. split; [reflexivity|]. simpl. split; [reflexivity|]. split.
    - rewrite paint_length, length_map. reflexivity.
    - apply paint_shown_exactly. }
  split; [exact Hp|].
  intros dt v v1 sk Ha Hsk Hok.
  destruct (Hp v1 sk Hsk Hok) as (v' & Hr & Hd & Hl & Hsh).
  exists v'. split; [unfold tick, bind; rewrite Ha; exact Hr|].
  split; [exact Hd|]. split; [|exact Hsh].
  rewrite Hl. pose proof (advance_pool dt v) as Hpool.
  rewrite Ha in Hpool. simpl in Hpool. rewrite Hpool. reflexivity.
Qed.

Lemma pool_okb_ok (l : list Slot) (pool : list ImageView) :
  pool_okb l pool = true -> pool_ok l pool.
Proof.
  unfold pool_okb, pool_ok. rewrite forallb_forall.
  intros H s a Hin Ha. apply list_elem_of_In in Hin.
  specialize (H s Hin). unfold slot_ok in H. rewrite Ha in H.
  apply Nat.ltb_lt. exact H.
Qed.

Lemma last_onb_ok (l : list Slot) (i k : nat) :
  last_onb l i k = true -> last_on l i k.
Proof.
  unfold last_onb, last_on. rewrite forallb_forall.
  intros H j s a Hlt [Hj Ha] Hk.
  assert (Hin : In s (drop (S i) l)).
  { apply list_elem_of_In, list_elem_of_lookup. exists (j - S i)%nat.
    rewrite lookup_drop. replace (S i + (j - S i))%nat with j by lia. exact Hj. }
  specialize (H s Hin). unfold draws_on in H. rewrite Ha in H.
  apply negb_true_iff, Nat.eqb_neq in H. contradiction.
Qed.

End Presenter.

Section Tick.
Context {E : Engine}.

Lemma armed_further_refl (v : View) : armed_further v v.
Proof.
  unfold armed_further. destruct (state v) as [st|]; [|reflexivity].
  exists []. split; [|constructor]. rewrite app_nil_r. destruct st; reflexivity.
Qed.

Lemma armed_further_trans (a b c : View) :
  armed_further a b -> armed_further b c -> armed_further a c.
Proof.
  unfold armed_further. destruct (state a) as [st|].
  - intros (cs1 & -> & H1). simpl. intros (cs2 & -> & H2).
    exists (cs1 ++ cs2)%list. split; [|apply Forall_app; auto].
    rewrite app_assoc. reflexivity.
  - intros ->. auto.
Qed.

Lemma setAnimationByName_armed_further (track : nat) (name : string) (lp : bool) (v : View) :
  armed_further v (view_of (setAnimationByName track name lp v)).
Proof.
  unfold setAnimationByName.
  destruct (state v) as [st|] eqn:Hst; simpl; [|apply armed_further_refl].
  destruct (findAnimation _ _); simpl; [|apply armed_further_refl].
  unfold armed_further. rewrite Hst. simpl.
  exists [SetAnimationByName track name lp]. split; [reflexivity|].
  repeat constructor.
Qed.

(** A view that differs in the controller's fields only. *)
Lemma armed_further_state (v w : View) : state w = state v -> armed_further v w.
Proof.
  intros H. pose proof (armed_further_refl v) as Hr.
  unfold armed_further in *. rewrite H. exact Hr.
Qed.

Lemma resetAnimation_armed_further (v : View) :
  armed_further v (view_of (resetAnimation v)).
Proof.
  unfold resetAnimation, stopAnimation. exec.
  destruct (js_truthy _); [|apply armed_further_state; reflexivity].
  pose proof (setAnimationByName_armed_further 0
                (default EmptyString (defaultAnimation (_opts v)))
                (js_or (loop (_opts v)) true) v) as H.
  destruct (setAnimationByName _ _ _ v) as [[] v1|e v1]; simpl in *; [|exact H].
  eapply armed_further_trans; [exact H|]. apply armed_further_state. reflexivity.
Qed.

(** The handlers make no call on the engine but to arm an animation. *)
Lemma onComplete_armed_further (track loopCount : nat) (v : View) :
  armed_further v (view_of (onComplete track loopCount v)).
Proof.
  unfold onComplete. exec.
  destruct (_isOnDefault v).
  - destruct (negb _); [apply resetAnimation_armed_further|apply armed_further_refl].
  - destruct (_currentAnimationOpts v) as [r|]; [|apply armed_further_refl].
    destruct (negb _); [|apply armed_further_refl]. simpl.
    destruct (_ <=? 0)%Z.
    + destruct (Request.callback r); simpl;
        (eapply armed_further_trans; [|apply resetAnimation_armed_further]);
        apply armed_further_state; reflexivity.
    + eapply armed_further_trans; [|apply setAnimationByName_armed_further].
      apply armed_further_state. reflexivity.
Qed.

Lemma onEvent_armed_further (track : nat) (data : EventData) (v : View) :
  armed_further v (view_of (onEvent track data v)).
Proof.
  apply armed_further_state. unfold onEvent. exec. cases; reflexivity.
Qed.

Lemma deliver_armed_further (hs : list HandlerCall) (v : View) :
  armed_further v (view_of (deliver hs v)).
Proof.
  apply (deliver_across armed_further).
  - apply armed_further_refl.
  - apply armed_further_trans.
  - intros t n a. apply onComplete_armed_further.
  - intros t d a. apply onEvent_armed_further.
Qed.

Lemma engineTime_of_arming (l cs : list EngineCall) :
  Forall arming cs -> engineTime_of (l ++ cs) == engineTime_of l.
Proof.
  intros H. induction l as [|c l IH]; simpl.
  - induction H as [|c cs Hc _ IH]; simpl; [reflexivity|].
    destruct c; simpl in Hc; [exact IH|contradiction|contradiction].
  - destruct c as [| [d|] |]; rewrite ?IH; reflexivity.
Qed.

(** What the presenter leaves: the skeleton with its world transforms
    brought up to date, and the pool drawn on. *)
Lemma present_result (v : View) (sk : Skeleton Pose) :
  skeleton v = Some sk ->
  pool_ok (drawOrder sk) (rendererObjects v) ->
  exists w,
    _present v = Return tt w /\ same_control v w /\ state w = state v /\
    skeleton w = Some {| pose := updateWorldTransform (pose sk);
                         drawOrder := drawOrder sk |} /\
    length (rendererObjects w) = length (rendererObjects v) /\
    shown_exactly (drawOrder sk) (rendererObjects w) /\
    drawn (updateWorldTransform (pose sk)) (drawOrder sk) (rendererObjects w).
Proof.
  intros Hsk Hok.
  pose proof (present_control v) as Hc. pose proof (present_state v) as Hs.
  rewrite (present_returns v sk Hsk Hok) in Hc, Hs |- *. simpl in Hc, Hs.
  eexists. split; [reflexivity|]. split; [exact Hc|]. split; [exact Hs|].
  simpl. split; [reflexivity|]. split; [|split].
  - rewrite paint_length, length_map. reflexivity.
  - apply paint_shown_exactly.
  - intros j s a Hsh Hlast.
    destruct (lookup_lt_is_Some_2 (rendererObjects v) (RegionAttachment.rendererObject a))
      as [img0 Himg0].
    { destruct Hsh as [Hj Ha]. apply (Hok s a); [|exact Ha].
      apply list_elem_of_lookup. exists j. exact Hj. }
    exists (with_style (fun _ => region_style
              (worldBone (updateWorldTransform (pose sk)) (bone s)) a j) img0).
    split; [|reflexivity].
    rewrite paint_lookup, (placed_last _ _ 0 j s a Hsh Hlast), list_lookup_fmap, Himg0.
    reflexivity.
Qed.

(** C7. While the view plays and is visible, [tick dt] passes
    [dt * (0.001 * 30 / frameRate)] to the engine's update and has the
    state applied to the skeleton, so that the engine's time has grown by
    that much when the tick is over; the handlers the engine calls from
    within the apply run, and unless one of them throws the presenter
    draws the pose applied.  While the view is paused or hidden, [tick dt]
    makes no call on the engine, whose time stands still, and is the
    presenter's pass alone: the world transforms of the pose as it stood
    are brought up to date, every image of the pool is hidden, and the
    region of every entry of the draw order is drawn on its image. *)
Theorem tick_advances_when_playing_and_visible (dt : Q) (v : View) :
  (forall st sk,
     _isPlaying v = true -> visible v = true ->
     state v = Some st -> skeleton v = Some sk ->
     let delta := js_mul dt (js_div (0.001 * 30) (frameRate v)) in
     let st1 := record_call (Update delta) st in
     let st' := record_call Apply st1 in
     let sk' := applyState st1 sk in
     let v1 := set_skeleton (Some sk') (set_state (Some st') v) in
     let called := if handlers st then applyCallbacks st1 else [] in
     calls st' = (calls st ++ [Update delta; Apply])%list /\
     tick dt v = (deliver called >> _present) v1 /\
     (exists st2 cs,
        state (view_of (tick dt v)) = Some st2 /\
        calls st2 = (calls st' ++ cs)%list /\ Forall arming cs /\
        forall fr, frameRate v = Some fr -> ~ fr == 0 ->
          delta = Some (dt * (0.001 * 30 / fr)) /\
          engineTime st2 == engineTime st + dt * (0.001 * 30 / fr)) /\
     (forall e v2, deliver called v1 = Throw e v2 -> tick dt v = Throw e v2) /\
     (forall v2,
        deliver called v1 = Return tt v2 ->
        pool_ok (drawOrder sk') (rendererObjects v) ->
        exists w,
          tick dt v = Return tt w /\ same_control v2 w /\
          skeleton w = Some {| pose := updateWorldTransform (pose sk');
                               drawOrder := drawOrder sk' |} /\
          length (rendererObjects w) = length (rendererObjects v) /\
          shown_exactly (drawOrder sk') (rendererObjects w) /\
          drawn (updateWorldTransform (pose sk')) (drawOrder sk') (rendererObjects w))) /\
  (_isPlaying v && visible v = false ->
     tick dt v = _present v /\
     state (view_of (tick dt v)) = state v /\
     forall sk,
       skeleton v = Some sk ->
       pool_ok (drawOrder sk) (rendererObjects v) ->
       exists w,
         tick dt v = Return tt w /\ same_control v w /\ state w = state v /\
         skeleton w = Some {| pose := updateWorldTransform (pose sk);
                              drawOrder := drawOrder sk |} /\
         length (rendererObjects w) = length (rendererObjects v) /\
         shown_exactly (drawOrder sk) (rendererObjects w) /\
         drawn (updateWorldTransform (pose sk)) (drawOrder sk) (rendererObjects w)).
Proof.
  split.
  - intros st sk Hp Hv Hst Hsk delta st1 st' sk' v1 called.
    assert (Ht : tick dt v = (deliver called >> _present) v1).
    { unfold tick, advance, state_update, state_apply.
      unfold bind at 1. unfold bind at 1. unfold get at 1.
      rewrite Hp, Hv. simpl. unfold bind at 1. rewrite Hst. simpl. rewrite Hsk.
      fold delta. fold st1. fold st'. fold sk'. fold v1.
      unfold called, bind. destruct (handlers st); reflexivity. }
    split; [unfold st', st1, record_call; simpl; rewrite <- app_assoc; reflexivity|].
    split; [exact Ht|].
    pose proof (deliver_armed_further called v1) as Harm.
    pose proof (deliver_scene called v1) as Hscene.
    split; [|split].
    + unfold armed_further in Harm. simpl in Harm.
      destruct Harm as (cs & Hcs & Hall).
      assert (Hstate : state (view_of (tick dt v)) = state (view_of (deliver called v1))).
      { rewrite Ht. rewrite view_of_bind.
        destruct (deliver called v1); [apply present_state|reflexivity]. }
      eexists. exists cs. split; [rewrite Hstate; exact Hcs|].
      split; [reflexivity|]. split; [exact Hall|].
      intros fr Hfr Hnz.
      assert (Hdelta : delta = Some (dt * (0.001 * 30 / fr))).
      { unfold delta. rewrite Hfr. simpl.
        destruct (Qeq_bool fr 0) eqn:Hz; [|reflexivity].
        apply Qeq_bool_eq in Hz. contradiction. }
      split; [exact Hdelta|].
      unfold engineTime. simpl. rewrite (engineTime_of_arming _ cs Hall).
      rewrite !engineTime_of_app, Hdelta. ring.
    + intros e v2 Hd. rewrite Ht. unfold bind. rewrite Hd. reflexivity.
    + intros v2 Hd Hok. rewrite Hd in Hscene. simpl in Hscene.
      destruct Hscene as (Hpool & Hskel & _).
      destruct (present_result v2 sk') as (w & Hw & Hc & _ & Hws & Hlen & Hsh & Hdr).
      { rewrite Hskel. reflexivity. }
      { rewrite Hpool. exact Hok. }
      exists w. split; [rewrite Ht; unfold bind; rewrite Hd; exact Hw|].
      split; [exact Hc|]. split; [exact Hws|]. split; [|split; assumption].
      rewrite Hlen, Hpool. reflexivity.
  - intros Hoff.
    assert (Ht : tick dt v = _present v).
    { unfold tick, advance. unfold bind at 1. unfold bind at 1. unfold get at 1.
      rewrite Hoff. reflexivity. }
    split; [exact Ht|]. split; [rewrite Ht; apply present_state|].
    intros sk Hsk Hok. rewrite Ht. apply present_result; assumption.
Qed.

End Tick.

Section Extension.
Context {E : Engine}.

Lemma extends_same (v w : View) :
  frameRate w = frameRate v -> skeletonData w = skeletonData v ->
  length (rendererObjects w) = length (rendererObjects v) ->
  state w = state v ->
  extends v w.
Proof.
  intros Hf Hd Hl Hs. unfold extends. repeat (split; [assumption|]).
  destruct (state v) as [st|]; [|exact Hs].
  exists []. split; [|constructor]. rewrite Hs, app_nil_r. destruct st; reflexivity.
Qed.

Lemma extends_refl (v : View) : extends v v.
Proof. apply extends_same; reflexivity. Qed.

Lemma extends_trans (v1 v2 v3 : View) :
  extends v1 v2 -> extends v2 v3 -> extends v1 v3.
Proof.
  intros (Hf1 & Hd1 & Hl1 & Hs1) (Hf2 & Hd2 & Hl2 & Hs2).
  unfold extends. split; [congruence|]. split; [congruence|]. split; [congruence|].
  destruct (state v1) as [st|].
  - destruct Hs1 as (cs1 & Hst & Hok1). rewrite Hst in Hs2. simpl in Hs2.
    destruct Hs2 as (cs2 & Hst' & Hok2).
    exists (cs1 ++ cs2)%list. split; [rewrite Hst', app_assoc; reflexivity|].
    apply Forall_app. split; assumption.
  - rewrite Hs1 in Hs2. exact Hs2.
Qed.

Lemma Ext_ret {A : Type} (a : A) : Ext (ret a).
Proof. intros v. apply extends_refl. Qed.

Lemma Ext_throw {A : Type} (e : Exn) : Ext (throw e : M A).
Proof. intros v. apply extends_refl. Qed.

Lemma Ext_get : Ext get.
Proof. intros v. apply extends_refl. Qed.

Lemma Ext_bind {A B : Type} (m : M A) (k : A -> M B) :
  Ext m -> (forall a, Ext (k a)) -> Ext (bind m k).
Proof.
  intros Hm Hk v. rewrite view_of_bind. specialize (Hm v).
  destruct (m v) as [a w|e w]; simpl in Hm; [|exact Hm].
  eapply extends_trans; [exact Hm|apply Hk].
Qed.

Lemma Ext_modify (f : View -> View) :
  (forall v, extends v (f v)) -> Ext (modify f).
Proof. intros H v. apply H. Qed.

Lemma Ext_setAnimationByName (name : string) (lp : bool) :
  Ext (setAnimationByName 0 name lp).
Proof.
  intros v. unfold setAnimationByName.
  destruct (state v) as [st|] eqn:Hst; [|apply extends_refl].
  destruct (findAnimation name (animations (st_data st))) as [a|] eqn:Ha;
    [|apply extends_refl].
  simpl. unfold extends; simpl. repeat (split; [reflexivity|]). rewrite Hst.
  exists [SetAnimationByName 0 name lp]. split; [reflexivity|].
  constructor; [|constructor]. simpl. split; [reflexivity|congruence].
Qed.

Lemma Ext_state_update (delta : option Q) : Ext (state_update delta).
Proof.
  intros v. unfold state_update.
  destruct (state v) as [st|] eqn:Hst; [|apply extends_refl].
  simpl. unfold extends; simpl. repeat (split; [reflexivity|]). rewrite Hst.
  exists [Update delta]. split; [reflexivity|]. constructor; [exact I|constructor].
Qed.

Ltac ext_setter := apply Ext_modify; intros ?; apply extends_same; reflexivity.

Ltac ext :=
  repeat first
    [ apply Ext_ret | apply Ext_throw | apply Ext_get
    | apply Ext_setAnimationByName | apply Ext_state_update
    | ext_setter
    | apply Ext_bind; [|intros ?]
    | match goal with
      | |- Ext (if ?b then _ else _) => destruct b
      | |- Ext (match ?x with _ => _ end) => destruct x
      end ].

Lemma Ext_startAnimation (name : string) (opts : option StartOpts.t) :
  Ext (startAnimation name opts).
Proof. unfold startAnimation. ext. Qed.

Lemma Ext_stopAnimation : Ext stopAnimation.
Proof. unfold stopAnimation. ext. Qed.

Lemma Ext_resetAnimation : Ext resetAnimation.
Proof. unfold resetAnimation. ext; apply Ext_stopAnimation. Qed.

Lemma Ext_onComplete (track loopCount : nat) : Ext (onComplete track loopCount).
Proof. unfold onComplete, invoke. ext; apply Ext_resetAnimation. Qed.

Lemma Ext_onEvent (track : nat) (data : EventData) : Ext (onEvent track data).
Proof. unfold onEvent, invoke. ext. Qed.

Lemma Ext_deliver (hs : list HandlerCall) : Ext (deliver hs).
Proof.
  intros v. apply (deliver_across extends).
  - apply extends_refl.
  - apply extends_trans.
  - intros t n a. apply Ext_onComplete.
  - intros t d a. apply Ext_onEvent.
Qed.

Lemma Ext_state_apply : Ext state_apply.
Proof.
  intros v. unfold state_apply.
  destruct (state v) as [st|] eqn:Hst; [|apply extends_refl].
  destruct (skeleton v) as [sk|]; [|apply extends_refl].
  apply extends_trans
    with (v2 := set_skeleton (Some (applyState st sk))
                  (set_state (Some (record_call Apply st)) v)).
  - unfold extends; simpl. repeat (split; [reflexivity|]). rewrite Hst.
    exists [Apply]. split; [reflexivity|]. constructor; [exact I|constructor].
  - destruct (handlers st); [apply (Ext_deliver (applyCallbacks st))|apply extends_refl].
Qed.

Lemma Ext_getDuration (name : string) : Ext (getDuration name).
Proof. unfold getDuration. ext. Qed.

Lemma Ext_present_slot (p : Pose) (i : nat) (s : Slot) : Ext (present_slot p i s).
Proof.
  intros v. unfold present_slot.
  destruct (attachment s) as [[a|n]|]; try apply extends_refl.
  exec. destruct (rendererObjects v !! _) as [img|]; [|apply extends_refl].
  simpl. apply extends_same; try reflexivity.
  simpl. apply length_insert.
Qed.

Lemma Ext_present_from (l : list Slot) : forall p i, Ext (present_from p i l).
Proof.
  induction l as [|s l IH]; intros p i; simpl; [apply Ext_ret|].
  apply Ext_bind; [apply Ext_present_slot|]. intros _. apply IH.
Qed.

Lemma Ext_present : Ext _present.
Proof.
  unfold _present. apply Ext_bind; [apply Ext_get|]. intros v.
  destruct (skeleton v) as [sk|]; [|apply Ext_throw].
  apply Ext_bind; [ext_setter|]. intros _.
  apply Ext_bind; [|intros _; apply Ext_present_from].
  apply Ext_modify. intros w. apply extends_same; try reflexivity.
  simpl. apply length_map.
Qed.

Lemma Ext_tick (dt : Q) : Ext (tick dt).
Proof.
  unfold tick, advance. apply Ext_bind; [|intros _; apply Ext_present].
  ext; apply Ext_state_apply.
Qed.

End Extension.

Section Setup.
Context {E : Engine}.

Lemma read_attachments_from (specs : list AttachmentSpec) :
  forall (imagePath : string) (pool : list ImageView),
    let r := readSkeletonAttachments imagePath specs pool in
    exists new,
      r.2 = (pool ++ new)%list /\
      region_ids r.1 = seq (length pool) (length new) /\
      Forall (fun img => Style.visible (style img) = false) new /\
      Forall2 (made_from imagePath r.2) specs r.1.
Proof.
  induction specs as [|spec specs IH]; intros imagePath pool; simpl.
  - exists []. rewrite app_nil_r. repeat split; constructor.
  - destruct spec as [n path ax ay arot aw ah|n].
    + specialize (IH imagePath (pool ++ [new_ImageView (imagePath ++ path ++ ".png")])%list).
      destruct (readSkeletonAttachments imagePath specs _) as [atts pool'].
      simpl in *. destruct IH as (new & Hp & Hids & Hhid & Hmade).
      exists (new_ImageView (imagePath ++ path ++ ".png") :: new).
      rewrite <- app_assoc in Hp. simpl in Hp.
      split; [exact Hp|]. split; [|split].
      * simpl. f_equal. rewrite Hids, length_app. simpl.
        replace (length pool + 1)%nat with (S (length pool)) by lia. reflexivity.
      * constructor; [reflexivity|exact Hhid].
      * constructor; [|exact Hmade]. simpl. split; [reflexivity|].
        rewrite Hp. apply list_lookup_middle. reflexivity.
    + specialize (IH imagePath pool).
      destruct (readSkeletonAttachments imagePath specs pool) as [atts pool'].
      simpl in *. destruct IH as (new & Hp & Hids & Hhid & Hmade).
      exists new. repeat (split; [assumption|]). constructor; [reflexivity|exact Hmade].
Qed.

(** X4. The factory the view hands to the reader gives every region
    attachment an image of its own, new and hidden, named
    [imagePath ++ path ++ ".png"], in the order the reader asks: the
    attachments come out as the reader met them, the region attachments
    draw on images 0, 1, 2, ... of the pool, and bounding boxes get no
    image. *)
Theorem factory_builds_pool (imagePath : string) (specs : list AttachmentSpec) :
  let r := readSkeletonAttachments imagePath specs [] in
  Forall2 (made_from imagePath r.2) specs r.1 /\
  region_ids r.1 = seq 0 (length r.2) /\
  Forall (fun img => Style.visible (style img) = false) r.2.
Proof.
  intros r. destruct (read_attachments_from specs imagePath []) as (new & Hp & Hids & Hh & Hm).
  fold r in Hp, Hids, Hm. simpl in Hp, Hids.
  split; [exact Hm|]. split; [rewrite Hp; exact Hids|rewrite Hp; exact Hh].
Qed.

Lemma region_ids_elem (atts : list Attachment) (a : RegionAttachment.t) :
  Region a ∈ atts -> RegionAttachment.rendererObject a ∈ region_ids atts.
Proof.
  induction atts as [|b atts IH]; intros Hin; [inversion Hin|].
  apply elem_of_cons in Hin as [<-|Hin]; simpl.
  - left.
  - destruct b; [right|]; apply IH; exact Hin.
Qed.

Lemma read_attachments_covered (imagePath : string) (specs : list AttachmentSpec)
    (a : RegionAttachment.t) :
  let r := readSkeletonAttachments imagePath specs [] in
  Region a ∈ r.1 -> (RegionAttachment.rendererObject a < length r.2)%nat.
Proof.
  intros r Hin. apply region_ids_elem in Hin.
  destruct (read_attachments_from specs imagePath []) as (new & Hp & Hids & _).
  fold r in Hp, Hids. simpl in Hp, Hids. rewrite Hids in Hin.
  apply elem_of_seq in Hin. rewrite Hp. lia.
Qed.

Lemma js_or_rate (p : option Q) : ~ js_or p 30 == 0.
Proof.
  unfold js_or. destruct p as [q|]; [|discriminate].
  destruct (truthy q) eqn:Ht; [|discriminate].
  unfold truthy, truthy_Q in Ht. apply negb_true_iff in Ht.
  intros Hq. apply Qeq_bool_iff in Hq. congruence.
Qed.

(** Every way [resetAllAnimations] can end. *)
Lemma resetAllAnimations_outcome (newOpts : option Opts) (v : View) :
  let opts := merge (default no_opts newOpts) (_opts v) in
  match resolveJson opts v with
  | Throw e _ => resetAllAnimations newOpts v = Throw e v
  | Return None _ => resetAllAnimations newOpts v = Return tt v
  | Return (Some j) _ =>
      let w := rebuilt opts j v in
      let finish (w : View) : View :=
        set_state (option_map set_handlers (state w))
          (set_frameRate (Some (js_or (frameRate_opt opts) 30))
             (set_isPlaying (js_or (autoStart opts) false)
                (set_isOnDefault true (set_currentAnimationOpts None w)))) in
      if js_truthy (defaultAnimation opts) then
        let d := default EmptyString (defaultAnimation opts) in
        match findAnimation d (readAnimations j) with
        | None => resetAllAnimations newOpts v = Throw (AnimationNotFound d) w
        | Some _ =>
            resetAllAnimations newOpts v =
            Return tt
              (finish (set_state
                         (option_map (record_call (SetAnimationByName 0 d true)) (state w)) w))
        end
      else resetAllAnimations newOpts v = Return tt (finish w)
  end.
Proof.
  intros opts.
  assert (Hstart : forall o, resolveJson opts v = o ->
            resetAllAnimations newOpts v =
            match o with
            | Return jsonData v' =>
                (match jsonData with
                 | Some jsonData =>
                     let imagePath := js_or (imagePath opts) EmptyString ++ "/" in
                     modify (set_rendererObjects []) >>
                     let '(atts, pool) :=
                       readSkeletonAttachments imagePath
                         (readAttachments (animationScale opts) jsonData) [] in
                     modify (set_rendererObjects pool) >>
                     let data := {| animations := readAnimations jsonData;
                                    attachments := atts |} in
                     modify (set_skeletonData (Some data)) >>
                     modify (set_skeleton (Some (newSkeleton data))) >>
                     let* st := createState in
                     modify (set_state (Some (set_defaultMix
                                                (js_or (defaultMix_opt opts) 0.4) st))) >>
                     (if js_truthy (defaultAnimation opts) then
                        setAnimationByName 0 (default EmptyString (defaultAnimation opts))
                                           (js_or (loop opts) true)
                      else ret tt) >>
                     modify (set_currentAnimationOpts None) >>
                     modify (set_isOnDefault true) >>
                     modify (set_isPlaying (js_or (autoStart opts) false)) >>
                     modify (set_frameRate (Some (js_or (frameRate_opt opts) 30))) >>
                     modify (fun v => set_state (option_map set_handlers (state v)) v)
                 | None => ret tt
                 end) v'
            | Throw e v' => Throw e v'
            end).
  { intros o Ho. unfold resetAllAnimations.
    unfold bind at 1. unfold get at 1. cbv beta iota zeta. fold opts.
    unfold bind at 1. rewrite Ho. reflexivity. }
  destruct (resolveJson_view opts v) as [[j Hj]|Hj]; rewrite Hj;
    rewrite (Hstart _ Hj); [|reflexivity].
  destruct j as [j|]; [|reflexivity].
  unfold rebuilt. cbv zeta.
  destruct (readSkeletonAttachments _ _ _) as [atts pool].
  clearbody opts. unfold setAnimationByName, createState. exec.
  destruct (js_truthy (defaultAnimation opts)); simpl; [|reflexivity].
  destruct (findAnimation _ (readAnimations j)); simpl; [|reflexivity].
  rewrite js_or_true. reflexivity.
Qed.

End Setup.

Section Wellformed.
Context {E : Engine}.

Lemma wellformed_extends (v w : View) : wellformed v -> extends v w -> wellformed w.
Proof.
  intros (Hr & Hd & Hp & Hc) (Hf & Hsd & Hl & Hs).
  unfold wellformed, rate_ok, data_ok, pool_covers, calls_ok in *.
  rewrite Hf, Hsd, Hl. split; [exact Hr|].
  destruct (state v) as [st|].
  - destruct Hs as (cs & Hw & Hcs). rewrite Hw. simpl.
    split; [exact Hd|]. split; [exact Hp|].
    intros st' [= <-]. simpl. apply Forall_app. split; [apply Hc; reflexivity|exact Hcs].
  - rewrite Hs. split; [exact Hd|]. split; [exact Hp|]. discriminate.
Qed.

Lemma rebuilt_wellformed (opts : Opts) (j : SpineJson) (v : View) :
  rate_ok v ->
  rate_ok (rebuilt opts j v) /\ data_ok (rebuilt opts j v) /\
  pool_covers (rebuilt opts j v) /\ calls_ok (rebuilt opts j v).
Proof.
  intros Hr. unfold rebuilt. split; [exact Hr|]. split; [reflexivity|]. split.
  - intros d a [= <-] Hin. simpl in *. apply read_attachments_covered. exact Hin.
  - intros st [= <-]. constructor.
Qed.

Lemma resetAllAnimations_wellformed (newOpts : option Opts) (v : View) :
  wellformed v -> wellformed (view_of (resetAllAnimations newOpts v)).
Proof.
  intros Hw. pose proof (resetAllAnimations_outcome newOpts v) as H. cbv zeta in H.
  set (opts := merge (default no_opts newOpts) (_opts v)) in *. clearbody opts.
  destruct (resolveJson_view opts v) as [[j Hj]|Hj]; rewrite Hj in H;
    [|rewrite H; exact Hw].
  destruct j as [j|]; [|rewrite H; exact Hw].
  destruct (rebuilt_wellformed opts j v (proj1 Hw)) as (Hr & Hd & Hp & Hc).
  assert (Hfin : forall st w,
            state w = Some st ->
            skeletonData w = Some (st_data st) ->
            rendererObjects w = rendererObjects (rebuilt opts j v) ->
            frameRate w = Some (js_or (frameRate_opt opts) 30) ->
            animations (st_data st) = readAnimations j ->
            attachments (st_data st) =
              (readSkeletonAttachments (js_or (imagePath opts) EmptyString ++ "/")
                 (readAttachments (animationScale opts) j) []).1 ->
            Forall (call_ok (st_data st)) (calls st) ->
            wellformed w).
  { intros st w Hst Hsd Hro Hfr Han Hat Hcalls.
    unfold wellformed, rate_ok, data_ok, pool_covers, calls_ok.
    rewrite Hsd, Hro, Hst, Hfr. split; [|split; [reflexivity|split]].
    - intros q [= <-]. apply js_or_rate.
    - intros d a [= <-] Hin. apply (Hp (st_data st)); [|exact Hin].
      unfold rebuilt; simpl. f_equal. destruct (st_data st) as [an at']. simpl in *.
      rewrite Han, Hat. reflexivity.
    - intros st' [= <-]. exact Hcalls. }
  destruct (js_truthy (defaultAnimation opts)).
  - destruct (findAnimation _ (readAnimations j)) as [a|] eqn:Ha; rewrite H; simpl.
    + eapply Hfin; [reflexivity..|]. simpl.
      constructor; [|constructor]. simpl. split; [reflexivity|congruence].
    + unfold wellformed. auto.
  - rewrite H. simpl. eapply Hfin; [reflexivity..|]. simpl. constructor.
Qed.

(** A view on which nothing has been built yet is well-formed. *)
Lemma unbuilt_wellformed (v : View) :
  frameRate v = None -> skeletonData v = None -> state v = None -> wellformed v.
Proof.
  intros Hf Hd Hs. unfold wellformed, rate_ok, data_ok, pool_covers, calls_ok.
  rewrite Hf, Hd, Hs. repeat split; discriminate.
Qed.

Lemma run_extends (op : Op) :
  match op with
  | SetFramerate _ | ResetAllAnimations _ => True
  | _ => Ext (run op)
  end.
Proof.
  destruct op; simpl; try exact I.
  - apply Ext_startAnimation.
  - apply Ext_stopAnimation.
  - apply Ext_resetAnimation.
  - unfold pause. intros v. apply extends_same; reflexivity.
  - unfold resume. intros v. apply extends_same; reflexivity.
  - apply Ext_bind; [apply Ext_getDuration|intros _; apply Ext_ret].
  - apply Ext_tick.
  - apply Ext_onComplete.
  - apply Ext_onEvent.
Qed.

Lemma run_wellformed (op : Op) (v : View) :
  wellformed v -> wellformed (view_of (run op v)).
Proof.
  intros Hw. pose proof (run_extends op) as He.
  destruct op; try (eapply wellformed_extends; [exact Hw|apply He]).
  - destruct Hw as (_ & Hd & Hp & Hc). simpl.
    split; [|split; [exact Hd|split; [exact Hp|exact Hc]]].
    intros q [= <-]. apply js_or_rate.
  - apply resetAllAnimations_wellformed. exact Hw.
Qed.

Lemma run_all_wellformed (ops : list Op) :
  forall v, wellformed v -> wellformed (run_all ops v).
Proof.
  induction ops as [|op ops IH]; intros v Hw; simpl; [exact Hw|].
  apply IH, run_wellformed, Hw.
Qed.

Lemma run_rate_defined (op : Op) (v : View) :
  is_Some (frameRate v) -> is_Some (frameRate (view_of (run op v))).
Proof.
  intros Hs. pose proof (run_extends op) as He.
  destruct op; try (destruct (He v) as (-> & _); exact Hs).
  - simpl. eexists. reflexivity.
  - simpl. pose proof (resetAllAnimations_outcome newOpts v) as H. cbv zeta in H.
    destruct (resolveJson_view (merge (default no_opts newOpts) (_opts v)) v)
      as [[j Hj]|Hj]; rewrite Hj in H; [|rewrite H; exact Hs].
    destruct j as [j|]; [|rewrite H; exact Hs].
    destruct (js_truthy _); [destruct (findAnimation _ _)|]; rewrite H; simpl;
      try (eexists; reflexivity); exact Hs.
Qed.


(** X14. The view looks animations up in one place: on any view reached
    from a well-formed one, [getDuration name] finds the animation exactly
    when [startAnimation name] does, and they fail with AnimationNotFound
    together. *)
Theorem getDuration_and_startAnimation_agree (ops : list Op) (v : View) (name : string)
    (opts : option StartOpts.t) :
  wellformed v ->
  let w := run_all ops v in
  ((exists q, getDuration name w = Return q w) <->
   (exists w', startAnimation name opts w = Return tt w')) /\
  (getDuration name w = Throw (AnimationNotFound name) w <->
   startAnimation name opts w = Throw (AnimationNotFound name) w).
Proof.
  intros Hw w. destruct (run_all_wellformed ops v Hw) as (_ & Hd & _). fold w in Hd.
  unfold data_ok in Hd.
  unfold getDuration, startAnimation, setAnimationByName. exec. rewrite Hd.
  destruct (state w) as [st|]; simpl.
  - destruct (findAnimation name (animations (st_data st))) as [a|]; simpl.
    + split; [split; intros _; destruct opts; eauto|split; destruct opts; discriminate].
    + split; [split; intros [? [=]]|split; intros _; reflexivity].
  - split; [split; intros [? [=]]|split; discriminate].
Qed.

(** X15. On any view reached from a well-formed one the pool holds the
    image of every region attachment of the skeleton data: a presentation
    pass over a skeleton that shows attachments of that data finds every
    image, returns, and leaves the pool the size it was. *)
Theorem present_finds_every_image (ops : list Op) (v : View) (sk : Skeleton Pose)
    (d : SkeletonData) :
  wellformed v ->
  let w := run_all ops v in
  skeleton w = Some sk ->
  skeletonData w = Some d ->
  (forall s a, s ∈ drawOrder sk -> attachment s = Some (Region a) ->
               Region a ∈ attachments d) ->
  pool_ok (drawOrder sk) (rendererObjects w) /\
  exists w',
    _present w = Return tt w' /\
    length (rendererObjects w') = length (rendererObjects w) /\
    shown_exactly (drawOrder sk) (rendererObjects w').
Proof.
  intros Hw w Hsk Hd Hshown.
  destruct (run_all_wellformed ops v Hw) as (_ & _ & Hp & _). fold w in Hp.
  assert (Hok : pool_ok (drawOrder sk) (rendererObjects w)).
  { intros s a Hin Ha. apply (Hp d a Hd). exact (Hshown s a Hin Ha). }
  split; [exact Hok|].
  rewrite (present_returns w sk Hsk Hok).
  eexists. split; [reflexivity|]. simpl. split.
  - rewrite paint_length, length_map. reflexivity.
  - apply paint_shown_exactly.
Qed.

End Wellformed.

Section Failures.
Context {E : Engine}.

(** X1. [startAnimation], [resetAnimation] and [getDuration] fail before
    they have changed anything: when one throws, the view is exactly what
    it was (a request in flight stays in flight, visibility and play state
    are untouched), and what is thrown is a TypeError on a view without
    animation state or skeleton data, AnimationNotFound otherwise.
    [stopAnimation], [pause], [resume], [setFramerate] and the event
    handler never throw. *)
Theorem failed_calls_change_nothing (op : Op) (v w : View) (e : Exn) :
  run op v = Throw e w ->
  match op with
  | StartAnimation name _ =>
      w = v /\
      match state v with
      | None => e = TypeError
      | Some st => e = AnimationNotFound name /\
                   findAnimation name (animations (st_data st)) = None
      end
  | ResetAnimation =>
      w = v /\
      exists d, defaultAnimation (_opts v) = Some d /\ truthy d = true /\
      match state v with
      | None => e = TypeError
      | Some st => e = AnimationNotFound d /\
                   findAnimation d (animations (st_data st)) = None
      end
  | GetDuration name =>
      w = v /\
      match skeletonData v with
      | None => e = TypeError
      | Some d => e = AnimationNotFound name /\ findAnimation name (animations d) = None
      end
  | StopAnimation | Pause | Resume | SetFramerate _ | Notify _ _ => False
  | _ => True
  end.
Proof.
  destruct op; simpl; try (intros _; exact I); try discriminate.
  - unfold startAnimation, setAnimationByName. exec.
    destruct (state v) as [st|]; [|intros [= <- <-]; auto].
    destruct (findAnimation _ _) eqn:Ha; [destruct opts; discriminate|].
    intros [= <- <-]. auto.
  - unfold resetAnimation, setAnimationByName. exec.
    destruct (defaultAnimation (_opts v)) as [d|]; simpl; [|discriminate].
    destruct (truthy d) eqn:Ht; [|discriminate].
    destruct (state v) as [st|];
      [|intros [= <- <-]; split; [reflexivity|exists d; auto]].
    destruct (findAnimation _ _) eqn:Ha; [discriminate|].
    intros [= <- <-]. split; [reflexivity|exists d; auto].
  - unfold getDuration. exec.
    destruct (skeletonData v) as [d|]; [|intros [= <- <-]; auto].
    destruct (findAnimation _ _) eqn:Ha; [discriminate|].
    intros [= <- <-]. auto.
  - unfold onEvent. exec. destruct (negb _); [|discriminate].
    destruct (_currentAnimationOpts v) as [r|]; [|discriminate].
    destruct (Request.eventCallback r); discriminate.
Qed.

(** X2. When the default animation that [resetAllAnimations] is to arm is
    not in the new skeleton data, the call throws AnimationNotFound half
    way: pool, skeleton data, skeleton and animation state are already the
    new ones, but the state has no handler and no animation set, and the
    playback fields (play state, default flag, current request, frame
    rate, visibility) are still the old ones. *)
Theorem resetAllAnimations_unknown_default (newOpts : option Opts) (v : View)
    (j : SpineJson) (d : string) :
  let opts := merge (default no_opts newOpts) (_opts v) in
  resolveJson opts v = Return (Some j) v ->
  defaultAnimation opts = Some d ->
  truthy d = true ->
  findAnimation d (readAnimations j) = None ->
  exists w st,
    resetAllAnimations newOpts v = Throw (AnimationNotFound d) w /\
    same_control v w /\
    state w = Some st /\ calls st = [] /\ handlers st = false /\
    animations (st_data st) = readAnimations j /\
    skeletonData w = Some (st_data st) /\
    skeleton w = Some (newSkeleton (st_data st)) /\
    rendererObjects w =
      (readSkeletonAttachments (js_or (imagePath opts) EmptyString ++ "/")
         (readAttachments (animationScale opts) j) []).2.
Proof.
  intros opts Hj Hd Ht Ha.
  pose proof (resetAllAnimations_outcome newOpts v) as H. cbv zeta in H.
  fold opts in H. rewrite Hj, Hd in H. simpl in H. rewrite Ht, Ha in H.
  rewrite H. do 2 eexists. split; [reflexivity|].
  unfold rebuilt, same_control. simpl. auto 12.
Qed.

(** X3. Without source data [resetAllAnimations] builds nothing and
    leaves the view as it was: with neither [spineData] nor [jsonText] and
    a [jsonFile] that is not in the cache, or with text that does not
    parse, it throws a SyntaxError; with text that parses to a falsy value
    it returns without a word. *)
Theorem resetAllAnimations_without_source (newOpts : option Opts) (v : View) :
  let opts := merge (default no_opts newOpts) (_opts v) in
  js_truthy (spineData opts) = false ->
  (js_truthy (jsonText opts) = false ->
   CACHE (default "undefined" (jsonFile opts)) = None ->
   resetAllAnimations newOpts v = Throw SyntaxError v) /\
  (forall text,
     (js_truthy (jsonText opts) = true /\ jsonText opts = Some text) \/
     (js_truthy (jsonText opts) = false /\
      CACHE (default "undefined" (jsonFile opts)) = Some text) ->
     match JSON_parse text with
     | ParseThrows => resetAllAnimations newOpts v = Throw SyntaxError v
     | ParsedFalsy => resetAllAnimations newOpts v = Return tt v
     | Parsed _ => True
     end).
Proof.
  intros opts Hs.
  pose proof (resetAllAnimations_outcome newOpts v) as H. cbv zeta in H.
  fold opts in H. clearbody opts.
  unfold resolveJson in H. rewrite Hs in H. split.
  - intros Ht Hc. rewrite Ht, Hc in H. exact H.
  - intros text [[Ht Hx]|[Ht Hc]]; rewrite Ht in H.
    + rewrite Hx in H. simpl in H. destruct (JSON_parse text); [exact H..|exact I].
    + rewrite Hc in H. destruct (JSON_parse text); [exact H..|exact I].
Qed.

End Failures.

Section Requests.
Context {E : Engine}.

(** X5. A request started with [loop] plays until something else ends
    it: the animation is armed looping, every completion the engine
    reports is ignored (the view stays exactly as it is, the count is
    not touched) and its completion callback is never called. *)
Theorem looping_request_ignores_completions (v : View) (st : AnimationState)
    (name : string) (a : Animation) (o : StartOpts.t) :
  state v = Some st ->
  findAnimation name (animations (st_data st)) = Some a ->
  js_truthy (StartOpts.loop o) = true ->
  exists v0,
    startAnimation name (Some o) v = Return tt v0 /\
    (state v0 ≫= armed) = Some (name, true) /\
    (forall track loopCount, onComplete track loopCount v0 = Return tt v0) /\
    (forall k, completions k v0 = v0) /\
    (forall k, fired (completions k v0) = fired v).
Proof.
  intros Hst Ha Hl.
  destruct (startAnimation_returns v st name a (Some o) Hst Ha)
    as (v0 & Hs & _ & Hf & _ & _ & Hd & Hc & Hst0).
  simpl in Hc, Hst0. rewrite Hl in Hc, Hst0.
  assert (Hone : forall track loopCount, onComplete track loopCount v0 = Return tt v0).
  { intros track loopCount. unfold onComplete. exec. rewrite Hd, Hc. reflexivity. }
  assert (Hall : forall k, completions k v0 = v0).
  { induction k as [|k IH]; [reflexivity|]. simpl. rewrite Hone. exact IH. }
  exists v0. split; [exact Hs|]. split; [rewrite Hst0; simpl; apply armed_record_call|].
  split; [exact Hone|]. split; [exact Hall|].
  intros k. rewrite Hall. exact Hf.
Qed.

Lemma resetAnimation_missing_default (v : View) (d : string) (st : AnimationState) :
  defaultAnimation (_opts v) = Some d ->
  truthy d = true ->
  state v = Some st ->
  findAnimation d (animations (st_data st)) = None ->
  resetAnimation v = Throw (AnimationNotFound d) v.
Proof.
  intros Hd Ht Hst Ha. unfold resetAnimation, setAnimationByName. exec.
  rewrite Hd. simpl. rewrite Ht, Hst, Ha. reflexivity.
Qed.

(** The completion that finds one cycle or less to go takes the count
    down, calls the completion callback and hands over to
    [resetAnimation]. *)
Lemma onComplete_last_cycle (v w : View) (st0 : AnimationState) (r : Request.t)
    (m : Z) (k : nat) :
  in_flight v st0 r m k w ->
  (m <= 1)%Z ->
  exists w2,
    onComplete 0 0 w = resetAnimation w2 /\
    _opts w2 = _opts v /\ state w2 = state w /\
    fired w2 = (fired v ++ completed_by (Request.callback r))%list /\
    _isOnDefault w2 = false /\
    _currentAnimationOpts w2 =
      Some {| Request.iterations := js_decrement m;
              Request.callback := Request.callback r;
              Request.eventCallback := Request.eventCallback r;
              Request.loop := false;
              Request.animationName := Request.animationName r |}.
Proof.
  intros (Ho & Hf & Hd & Hc & st & Hst & Hdata & Hcalls) Hm.
  assert (Hdec : (js_decrement m <=? 0)%Z = true).
  { apply Z.leb_le. apply round_double_nonpos. lia. }
  unfold onComplete. unfold bind at 1. unfold get at 1. rewrite Hd, Hc.
  cbn [negb Request.loop Request.iterations Request.callback Request.eventCallback
       Request.animationName].
  rewrite Hdec.
  unfold bind at 1. unfold modify at 1.
  set (w1 := set_currentAnimationOpts _ w).
  set (w2 := set_fired (fired w1 ++ completed_by (Request.callback r)) w1).
  assert (Hcb : (match Request.callback r with
                 | Some cb => invoke (Completed cb)
                 | None => ret tt
                 end) w1 = Return tt w2).
  { unfold w2, completed_by. destruct (Request.callback r); exec; [reflexivity|].
    rewrite app_nil_r. destruct w; reflexivity. }
  unfold bind at 1. rewrite Hcb.
  exists w2. split; [reflexivity|]. split; [exact Ho|]. split; [reflexivity|].
  split; [unfold w2; simpl; rewrite Hf; reflexivity|].
  split; [exact Hd|]. reflexivity.
Qed.

(** X6. A count that is missing or zero counts as one, and a request
    whose count is one or less (a negative count too) is over at the
    first completion: that completion calls the completion callback, if
    there is one, and runs [resetAnimation].  With no default animation
    stored, or one that the skeleton data has, the request is ended and
    the view is back on its default state.  With a stored default
    animation that the skeleton data lacks, [resetAnimation] throws once
    the callback has been called, and the request stays in flight, its
    count taken down. *)
Theorem request_of_one_cycle_or_less (v : View) (st : AnimationState) (name : string)
    (a : Animation) (opts : option StartOpts.t) :
  state v = Some st ->
  findAnimation name (animations (st_data st)) = Some a ->
  match opts with Some o => js_truthy (StartOpts.loop o) | None => false end = false ->
  exists v0 r,
    startAnimation name opts v = Return tt v0 /\
    _currentAnimationOpts v0 = Some r /\
    (opts ≫= StartOpts.iterations = None \/ opts ≫= StartOpts.iterations = Some 0%Z ->
     Request.iterations r = 1%Z) /\
    ((Request.iterations r <= 1)%Z ->
     let v1 := view_of (onComplete 0 0 v0) in
     fired v1 = (fired v ++ completed_by (opts ≫= StartOpts.callback))%list /\
     ((forall d, defaultAnimation (_opts v) = Some d -> truthy d = true ->
                 findAnimation d (animations (st_data st)) <> None) ->
      returned (onComplete 0 0 v0) = true /\
      _currentAnimationOpts v1 = None /\
      _isOnDefault v1 = true) /\
     (forall d, defaultAnimation (_opts v) = Some d -> truthy d = true ->
                findAnimation d (animations (st_data st)) = None ->
      onComplete 0 0 v0 = Throw (AnimationNotFound d) v1 /\
      _currentAnimationOpts v1 =
        Some {| Request.iterations := js_decrement (Request.iterations r);
                Request.callback := Request.callback r;
                Request.eventCallback := Request.eventCallback r;
                Request.loop := false;
                Request.animationName := name |} /\
      _isOnDefault v1 = false)).
Proof.
  intros Hst Ha Hl.
  destruct (startAnimation_returns v st name a opts Hst Ha)
    as (v0 & Hs & Ho0 & Hf0 & _ & _ & Hd0 & Hc0 & Hst0).
  rewrite Hl in Hc0, Hst0.
  set (r := {| Request.iterations :=
                 match opts with
                 | Some o => js_or (StartOpts.iterations o) 1%Z
                 | None => 1%Z
                 end;
               Request.callback := opts ≫= StartOpts.callback;
               Request.eventCallback := opts ≫= StartOpts.eventCallback;
               Request.loop := false;
               Request.animationName := name |}) in *.
  set (st0 := record_call (SetAnimationByName 0 name false) st) in *.
  exists v0, r. split; [exact Hs|]. split; [exact Hc0|]. split.
  - simpl. destruct opts as [o|]; [|reflexivity]. simpl.
    intros [-> | ->]; reflexivity.
  - intros Hle.
    assert (Hfl : in_flight v st0 r (Request.iterations r) 0 v0).
    { unfold in_flight. split; [exact Ho0|]. split; [exact Hf0|]. split; [exact Hd0|].
      split; [exact Hc0|]. exists st0. simpl. rewrite app_nil_r. auto. }
    destruct (onComplete_last_cycle v v0 st0 r (Request.iterations r) 0 Hfl Hle)
      as (w2 & Hw & Ho2 & Hst2 & Hf2 & Hd2 & Hc2).
    rewrite Hst0 in Hst2.
    assert (Hdata : animations (st_data st0) = animations (st_data st)) by reflexivity.
    cbv zeta. rewrite Hw.
    destruct (defaultAnimation (_opts v)) as [d|] eqn:Hda.
    + destruct (truthy d) eqn:Ht.
      * rewrite <- Ho2 in Hda.
        destruct (findAnimation d (animations (st_data st))) as [a'|] eqn:Ha'.
        -- rewrite (resetAnimation_with_default w2 d st0 a' Hda Ht Hst2 Ha'). simpl.
           split; [exact Hf2|]. split; [auto|].
           intros d' [= <-] _ Hnone. congruence.
        -- rewrite (resetAnimation_missing_default w2 d st0 Hda Ht Hst2 Ha'). simpl.
           split; [exact Hf2|]. split.
           ++ intros Hdef. exfalso. exact (Hdef d eq_refl Ht Ha').
           ++ intros d' [= <-] _ _. auto.
      * rewrite resetAnimation_without_default by (rewrite Ho2, Hda; exact Ht). simpl.
        split; [exact Hf2|]. split; [auto|].
        intros d' [= <-] Ht'. congruence.
    + rewrite resetAnimation_without_default by (rewrite Ho2, Hda; reflexivity). simpl.
      split; [exact Hf2|]. split; [auto|]. intros d' [=].
Qed.

(** X7. An event of the timeline goes to the event callback of the
    request in flight and to nobody else: after a start it is passed on,
    with its data, when the request named an event callback; on the
    default state it is swallowed.  The handler touches nothing but the
    record of the calls made. *)
Theorem events_go_to_the_request_in_flight (v : View) (track : nat) (data : EventData) :
  (forall st name a opts,
     state v = Some st ->
     findAnimation name (animations (st_data st)) = Some a ->
     exists v0,
       startAnimation name opts v = Return tt v0 /\
       onEvent track data v0 =
       Return tt
         (set_fired (fired v ++ match opts ≫= StartOpts.eventCallback with
                                | Some cb => [Event cb data]
                                | None => []
                                end) v0)) /\
  (_isOnDefault v = true -> onEvent track data v = Return tt v) /\
  (exists extra,
     onEvent track data v = Return tt (set_fired (fired v ++ extra) v) /\
     forall cb, Completed cb ∉ extra).
Proof.
  split; [|split].
  - intros st name a opts Hst Ha.
    destruct (startAnimation_returns v st name a opts Hst Ha)
      as (v0 & Hs & _ & Hf & _ & _ & Hd & Hc & _).
    exists v0. split; [exact Hs|]. unfold onEvent. exec. rewrite Hd, Hc. simpl.
    destruct (opts ≫= StartOpts.eventCallback); unfold modify; rewrite <- Hf;
      [reflexivity|].
    rewrite app_nil_r. destruct v0; reflexivity.
  - intros Hd. unfold onEvent. exec. rewrite Hd. reflexivity.
  - assert (Hno : exists extra : list Invocation,
              Return tt v = Return tt (set_fired (fired v ++ extra) v) /\
              forall cb, Completed cb ∉ extra).
    { exists []. split; [rewrite app_nil_r; destruct v; reflexivity|].
      intros cb Hin. inversion Hin. }
    unfold onEvent. exec. destruct (negb _); [|exact Hno].
    destruct (_currentAnimationOpts v) as [r|]; [|exact Hno].
    destruct (Request.eventCallback r) as [cb|]; [|exact Hno].
    exists [Event cb data]. split; [reflexivity|].
    intros cb' Hin. apply list_elem_of_singleton in Hin. discriminate.
Qed.

(** X8. [stopAnimation] always returns and leaves the view stopped, not
    playing, hidden, without a request, whatever it was doing; it makes
    no call on the engine and calls no callback, so a request in flight is
    dropped silently; a second stop changes nothing.  [resetAnimation]
    does just that when no default animation is configured, an empty
    name counting as none. *)
Theorem stopAnimation_stops (v : View) :
  exists w,
    stopAnimation v = Return tt w /\
    Stopped w /\ _isOnDefault w = true /\
    state w = state v /\ fired w = fired v /\
    rendererObjects w = rendererObjects v /\
    stopAnimation w = Return tt w /\
    (defaultAnimation (_opts v) = None \/ defaultAnimation (_opts v) = Some EmptyString ->
     resetAnimation v = Return tt w).
Proof.
  eexists. split; [reflexivity|]. split; [unfold Stopped; simpl; auto|]. simpl.
  do 5 (split; [reflexivity|]).
  intros Hd. rewrite resetAnimation_without_default; [reflexivity|].
  destruct Hd as [-> | ->]; reflexivity.
Qed.

End Requests.

Section Clock.
Context {E : Engine}.

Lemma run_all_app (l1 l2 : list Op) :
  forall v, run_all (l1 ++ l2) v = run_all l2 (run_all l1 v).
Proof. induction l1 as [|op l1 IH]; intros v; simpl; [reflexivity|apply IH]. Qed.

Lemma tick_idle (dt : Q) (v : View) :
  _isPlaying v && visible v = false ->
  same_control v (view_of (tick dt v)) /\ state (view_of (tick dt v)) = state v.
Proof.
  intros Hoff.
  assert (Ht : tick dt v = _present v).
  { unfold tick, advance. unfold bind at 1. unfold bind at 1. unfold get at 1.
    rewrite Hoff. reflexivity. }
  rewrite Ht. split; [apply present_control|apply present_state].
Qed.

Lemma ticks_idle (dts : list Q) :
  forall v, _isPlaying v && visible v = false ->
            same_control v (run_all (Tick <$> dts) v) /\
            state (run_all (Tick <$> dts) v) = state v.
Proof.
  induction dts as [|dt dts IH]; intros v Hoff; simpl.
  - split; [apply same_control_refl|reflexivity].
  - destruct (tick_idle dt v Hoff) as [Hc Hs].
    destruct (IH (view_of (tick dt v))) as [Hc' Hs'].
    { destruct Hc as (_ & -> & -> & _). exact Hoff. }
    split; [eapply same_control_trans; [exact Hc|exact Hc']|].
    etransitivity; [exact Hs'|exact Hs].
Qed.

(** X9. Pausing costs nothing: pause a playing view, let any number of
    ticks pass, resume, and the playback fields (request and remaining
    count, default flag, frame rate, visibility, callbacks called) and the
    animation state, with the time that has passed in it, are what they
    were; the ticks in between made no call on the engine.  Pause and
    resume with nothing in between give back the very same view. *)
Theorem pause_ticks_resume (v : View) (dts : list Q) :
  _isPlaying v = true ->
  let paused := run_all (Pause :: (Tick <$> dts)) v in
  let w := run_all (Pause :: (Tick <$> dts) ++ [Resume]) v in
  state paused = state v /\
  same_control v w /\ state w = state v /\
  (dts = [] -> w = v).
Proof.
  intros Hp paused w.
  destruct (ticks_idle dts (set_isPlaying false v) eq_refl) as [Hc Hs].
  simpl in Hs. split; [exact Hs|].
  unfold w. change (Pause :: (Tick <$> dts) ++ [Resume])
    with ((Pause :: (Tick <$> dts)) ++ [Resume])%list.
  rewrite run_all_app. fold paused. simpl.
  split; [|split].
  - destruct Hc as (Ho & Hv & _ & Hd & Hcur & Hf & Hfi). simpl in *.
    unfold same_control. simpl. fold paused. rewrite Hp. auto 10.
  - exact Hs.
  - intros ->. unfold paused. simpl. destruct v. simpl in *. subst. reflexivity.
Qed.

End Clock.

Section MissingImage.
Context {E : Engine}.

Lemma present_from_missing (l1 : list Slot) :
  forall (p : Pose) (i : nat) (v : View) (s : Slot) (l2 : list Slot)
         (a : RegionAttachment.t),
    pool_ok l1 (rendererObjects v) ->
    attachment s = Some (Region a) ->
    (length (rendererObjects v) <= RegionAttachment.rendererObject a)%nat ->
    present_from p i (l1 ++ s :: l2) v =
    Throw TypeError (set_rendererObjects (paint p i l1 (rendererObjects v)) v).
Proof.
  induction l1 as [|s1 l1 IH]; intros p i v s l2 a Hok Ha Hlen; simpl.
  - unfold bind, present_slot. rewrite Ha. exec.
    rewrite (lookup_ge_None_2 _ _ Hlen). destruct v; reflexivity.
  - apply pool_ok_cons in Hok as [Hs1 Hl1].
    unfold bind. rewrite (present_slot_paint p i s1 v Hs1).
    rewrite (IH p (S i) _ s l2 a); [reflexivity| |exact Ha|].
    + intros s' a' Hin Ha'. simpl. rewrite paint_slot_length. exact (Hl1 s' a' Hin Ha').
    + simpl. rewrite paint_slot_length. exact Hlen.
Qed.

(** X11. A region attachment in the draw order whose image is not in the
    pool stops the presentation pass with a TypeError at that entry: the
    entries before it have been drawn (over a pool hidden first), the
    entries after it have not, and the playback fields are untouched.
    [tick] on a paused view fails the same way. *)
Theorem present_stops_at_missing_image (v : View) (sk : Skeleton Pose)
    (l1 l2 : list Slot) (s : Slot) (a : RegionAttachment.t) :
  skeleton v = Some sk ->
  drawOrder sk = (l1 ++ s :: l2)%list ->
  pool_ok l1 (rendererObjects v) ->
  attachment s = Some (Region a) ->
  (length (rendererObjects v) <= RegionAttachment.rendererObject a)%nat ->
  exists w,
    _present v = Throw TypeError w /\
    same_control v w /\
    shown_exactly l1 (rendererObjects w) /\
    (_isPlaying v && visible v = false -> forall dt, tick dt v = Throw TypeError w).
Proof.
  intros Hsk Hdo Hok Ha Hlen.
  assert (Hp : _present v =
               Throw TypeError
                 (set_rendererObjects
                    (paint (updateWorldTransform (pose sk)) 0 l1
                       (map (with_style Style.hide) (rendererObjects v)))
                    (set_skeleton
                       (Some {| pose := updateWorldTransform (pose sk);
                                drawOrder := drawOrder sk |}) v))).
  { unfold _present. unfold bind at 1. unfold get at 1. rewrite Hsk.
    unfold bind at 1. unfold modify at 1. unfold bind at 1. unfold modify at 1.
    rewrite Hdo. cbv zeta. simpl pose.
    rewrite (present_from_missing l1 _ 0 _ s l2 a); [reflexivity| |exact Ha|].
    - intros s' a' Hin Ha'. simpl. rewrite length_map. exact (Hok s' a' Hin Ha').
    - simpl. rewrite length_map. exact Hlen. }
  eexists. split; [exact Hp|]. split; [|split].
  - unfold same_control. simpl. auto 10.
  - simpl. apply paint_shown_exactly.
  - intros Hoff dt. unfold tick, advance. unfold bind at 1. unfold bind at 1.
    unfold get at 1. rewrite Hoff. exact Hp.
Qed.

End MissingImage.

Section Frames.
Context {E : Engine}.

(** X16. A request dropped by [stopAnimation], or by a [resetAnimation]
    that returns, never completes: nothing that happens afterwards calls
    its completion callback, unless a later [startAnimation] hands the
    same callback in again. *)
Theorem dropped_request_never_completes (v w : View) (cb : Callback) (ops : list Op) :
  stopAnimation v = Return tt w \/ resetAnimation v = Return tt w ->
  (forall op, op ∈ ops -> ~ starts_with cb op) ->
  _currentAnimationOpts w = None /\
  exists extra,
    fired (run_all ops w) = (fired v ++ extra)%list /\ Completed cb ∉ extra.
Proof.
  intros Hw Hops.
  assert (H : _currentAnimationOpts w = None /\ fired w = fired v).
  { destruct Hw as [Hw|Hw].
    - injection Hw as <-. split; reflexivity.
    - unfold resetAnimation, setAnimationByName in Hw. exec.
      destruct (js_truthy _); [|injection Hw as <-; split; reflexivity].
      destruct (state v); [|discriminate].
      destruct (findAnimation _ _); [|discriminate].
      injection Hw as <-. split; reflexivity. }
  destruct H as [Hc Hf]. split; [exact Hc|].
  destruct (run_all_fired ops w) as (extra & Hfe & Hin).
  exists extra. split; [rewrite Hfe, Hf; reflexivity|].
  intros Hbad. destruct (Hin cb Hbad) as [Hreq|(op & Hop & Hs)].
  - unfold request_callback in Hreq. rewrite Hc in Hreq. discriminate.
  - exact (Hops op Hop Hs).
Qed.

(** X17. [resume] does not undo [stopAnimation]: after a stop and a
    resume the view is marked playing but is still hidden, so the ticks
    that follow make no call on the engine and no time passes, until a
    [startAnimation] or [resetAnimation] makes the view visible again. *)
Theorem resume_after_stop_plays_nothing (v : View) (dts : list Q) :
  let w := run_all (StopAnimation :: Resume :: (Tick <$> dts)) v in
  _isPlaying w = true /\ visible w = false /\ state w = state v.
Proof.
  intros w. unfold w. simpl.
  set (v1 := view_of (resume (view_of (stopAnimation v)))).
  destruct (ticks_idle dts v1 eq_refl) as [(_ & Hv & Hp & _) Hs].
  split; [exact Hp|]. split; [exact Hv|exact Hs].
Qed.

(** X18. The sprites and the skeleton change in [tick] and in
    [resetAllAnimations] only: no other method and neither handler
    touches the pool or the skeleton.  And [stopAnimation], [pause],
    [resume], [setFramerate], [getDuration] and the event handler make no
    call on the engine. *)
Theorem only_tick_and_reset_all_draw (op : Op) (v : View) :
  let w := view_of (run op v) in
  match op with
  | Tick _ | ResetAllAnimations _ => True
  | StartAnimation _ _ | ResetAnimation | Complete _ _ =>
      rendererObjects w = rendererObjects v /\ skeleton w = skeleton v
  | _ =>
      rendererObjects w = rendererObjects v /\ skeleton w = skeleton v /\
      state w = state v
  end.
Proof.
  destruct op; simpl; auto.
  - unfold startAnimation, setAnimationByName. exec.
    destruct (state v); simpl; auto.
    destruct (findAnimation _ _); simpl; auto.
    destruct opts; simpl; auto.
  - unfold resetAnimation, setAnimationByName. exec.
    destruct (js_truthy _); simpl; auto.
    destruct (state v); simpl; auto.
    destruct (findAnimation _ _); simpl; auto.
  - unfold getDuration. exec.
    destruct (skeletonData v); simpl; auto.
    destruct (findAnimation _ _); simpl; auto.
  - unfold onComplete, resetAnimation, setAnimationByName. exec.
    destruct (_isOnDefault v).
    + destruct (negb _); simpl; auto.
      destruct (js_truthy _); simpl; auto.
      destruct (state v); simpl; auto.
      destruct (findAnimation _ _); simpl; auto.
    + destruct (_currentAnimationOpts v) as [r|]; simpl; auto.
      destruct (negb _); simpl; auto.
      destruct (_ <=? 0)%Z; simpl.
      * destruct (Request.callback r); simpl;
        (destruct (js_truthy _); simpl; auto);
        (destruct (state v); simpl; auto);
        (destruct (findAnimation _ _); simpl; auto).
      * destruct (state v); simpl; auto.
        destruct (findAnimation _ _); simpl; auto.
  - unfold onEvent. exec.
    destruct (negb _); simpl; auto.
    destruct (_currentAnimationOpts v) as [r|]; simpl; auto.
    destruct (Request.eventCallback r); simpl; auto.
Qed.

End Frames.

(** * The properties at work on the small engine *)

#[local] Existing Instance Demo.engine.

Ltac run := vm_compute; reflexivity.

(** C5, as first stated, fails: a duration of 0.0625 s at frame rate 30
    comes back as 62.5, which is no whole number of milliseconds. *)
Lemma getDuration_not_whole :
  exists q, getDuration "jump" Demo.idle_view = Return (Some q) Demo.idle_view /\
            q == 62.5 /\ ~ whole q.
Proof.
  eexists. split; [run|]. split; [run|].
  intros [z Hz]. unfold Qeq in Hz. simpl in Hz. lia.
Qed.

(** C9, as first stated, fails: [resetAllAnimations] on a visible view
    without autoStart leaves it not playing but still visible, which is
    not Stopped; and on a hidden view with default animation idle, loop
    and autoStart it leaves the view playing but still hidden. *)
Lemma resetAllAnimations_keeps_visibility :
  (js_truthy (autoStart (merge no_opts (_opts Demo.jumping_view))) = false /\
   exists v', resetAllAnimations None Demo.jumping_view = Return tt v' /\
              _isPlaying v' = false /\ visible v' = true /\ ~ Stopped v') /\
  (defaultAnimation (_opts Demo.stopped_view) = Some "idle" /\
   loop (_opts Demo.stopped_view) = Some true /\
   autoStart (_opts Demo.stopped_view) = Some true /\
   exists v', resetAllAnimations None Demo.stopped_view = Return tt v' /\
              DefaultLoop v' /\ visible v' = false).
Proof.
  split.
  - split; [run|].
    exists (view_of (resetAllAnimations None Demo.jumping_view)).
    split; [run|]. split; [run|]. split; [run|].
    intros (_ & Hv & _). vm_compute in Hv. discriminate.
  - repeat (split; [run|]).
    exists (view_of (resetAllAnimations None Demo.stopped_view)).
    split; [run|]. split; [split; run|run].
Qed.



Lemma default_animation_armed_looping_witness :
  loop (_opts Demo.once_view) = Some false /\
  exists v' st',
    resetAnimation Demo.once_view = Return tt v' /\ state v' = Some st' /\
    armed st' = Some ("idle", true).
Proof.
  split; [run|].
  assert (H1 : defaultAnimation (_opts Demo.once_view) = Some "idle") by run.
  assert (H2 : truthy "idle" = true) by run.
  assert (H3 : state Demo.once_view = Some Demo.idle_state) by run.
  assert (H4 : findAnimation "idle" (animations (st_data Demo.idle_state)) = Some Demo.idle)
    by run.
  destruct (proj1 default_animation_armed_looping Demo.once_view "idle"
              Demo.idle_state Demo.idle H1 H2 H3 H4)
    as (v' & st' & Hr & Hst & _ & Ha).
  exists v', st'. split; [exact Hr|]. split; [exact Hst|exact Ha].
Defined.

Lemma region_attachment_geometry_witness :
  exists v' img,
    _present Demo.posed_view = Return tt v' /\
    rendererObjects v' !! 0%nat = Some img /\
    Style.x (style img) == 80 /\ Style.y (style img) == 20 /\
    Style.width (style img) == 40 /\ Style.height (style img) == 60 /\
    Style.r (style img) == 0 /\ Style.zIndex (style img) = 0%nat.
Proof.
  assert (H1 : skeleton Demo.posed_view = Some Demo.posed_skeleton) by run.
  assert (H2 : pool_ok (drawOrder Demo.posed_skeleton) (rendererObjects Demo.posed_view))
    by (apply pool_okb_ok; run).
  assert (H3 : shows (drawOrder Demo.posed_skeleton) 0 Demo.head_slot Demo.head)
    by (split; run).
  assert (H4 : last_on (drawOrder Demo.posed_skeleton) 0
                 (RegionAttachment.rendererObject Demo.head))
    by (apply last_onb_ok; run).
  destruct (proj1 region_attachment_geometry Demo.posed_view Demo.posed_skeleton
              0%nat Demo.head_slot Demo.head H1 H2 H3 H4)
    as (v' & img & Hr & Hl & Hw & Hh & Hrot & _ & _ & Hx & Hy & _ & Hz).
  exists v', img. split; [exact Hr|]. split; [exact Hl|].
  rewrite Hx, Hy, Hw, Hh, Hrot, Hz. repeat split; run.
Defined.

Lemma presentation_pass_visibility_witness :
  exists sk v',
    skeleton Demo.idle_view = Some sk /\
    tick 16 Demo.idle_view = Return tt v' /\
    shown_exactly (drawOrder sk) (rendererObjects v').
Proof.
  set (sk := newSkeleton Demo.idle_data).
  set (v1 := view_of (advance 16 Demo.idle_view)).
  assert (H1 : advance 16 Demo.idle_view = Return tt v1) by run.
  assert (H2 : skeleton v1 = Some sk) by run.
  assert (H3 : pool_ok (drawOrder sk) (rendererObjects v1)) by (apply pool_okb_ok; run).
  destruct (proj2 presentation_pass_visibility 16 Demo.idle_view v1 sk H1 H2 H3)
    as (v' & Hr & _ & _ & Hs).
  exists sk, v'. split; [run|]. split; [exact Hr|exact Hs].
Defined.

Lemma getDuration_result_witness :
  getDuration "missing" Demo.idle_view =
    Throw (AnimationNotFound "missing") Demo.idle_view /\
  exists q, getDuration "idle" Demo.idle_view = Return (Some q) Demo.idle_view /\
            q == 1500.
Proof.
  assert (H1 : skeletonData Demo.idle_view = Some Demo.idle_data) by run.
  destruct (getDuration_result "missing" Demo.idle_view Demo.idle_data H1) as [Hthrow _].
  destruct (getDuration_result "idle" Demo.idle_view Demo.idle_data H1) as [_ Hret].
  split.
  - apply Hthrow. intros a Ha.
    repeat (apply elem_of_cons in Ha as [->|Ha]; [discriminate|]).
    inversion Ha.
  - assert (H2 : findAnimation "idle" (animations Demo.idle_data) = Some Demo.idle) by run.
    destruct (Hret Demo.idle H2) as (_ & _ & H). apply H; run.
Defined.

Lemma abandoned_request_never_completes_witness :
  let v1 := view_of (startAnimation "jump" (Some Demo.jump_twice) Demo.idle_view) in
  let v2 := view_of (startAnimation "idle" (Some Demo.idle_once) v1) in
  let ops := [Complete 0 0; Tick 16; Complete 0 0; Pause; Complete 0 0] in
  exists extra,
    fired (run_all ops v2) = (fired v1 ++ extra)%list /\ Completed 7%nat ∉ extra.
Proof.
  intros v1 v2 ops.
  set (r1 := {| Request.iterations := 2%Z; Request.callback := Some 7%nat;
                Request.eventCallback := None; Request.loop := false;
                Request.animationName := "jump" |}).
  assert (H1 : _currentAnimationOpts v1 = Some r1) by run.
  assert (H2 : Request.callback r1 = Some 7%nat) by run.
  assert (H3 : startAnimation "idle" (Some Demo.idle_once) v1 = Return tt v2) by run.
  assert (H4 : Some Demo.idle_once ≫= StartOpts.callback <> Some 7%nat)
    by (vm_compute; discriminate).
  assert (H5 : forall op, op ∈ ops -> ~ starts_with 7%nat op).
  { intros op Hin (n & o & -> & _).
    repeat (apply elem_of_cons in Hin as [Hin|Hin]; [discriminate|]).
    inversion Hin. }
  destruct (abandoned_request_never_completes v1 v2 r1 7%nat "idle"
              (Some Demo.idle_once) ops H1 H2 H3 H4 H5) as (_ & _ & H).
  exact H.
Defined.

Lemma tick_advances_when_playing_and_visible_witness :
  (exists st2,
     state (view_of (tick 100 Demo.jump_once_view)) = Some st2 /\
     engineTime st2 == 0.1 /\
     (state (view_of (tick 100 Demo.jump_once_view)) ≫= armed) = Some ("idle", true) /\
     fired (view_of (tick 100 Demo.jump_once_view)) = [Completed 7%nat] /\
     exists w,
       tick 100 Demo.jump_once_view = Return tt w /\
       shown_exactly (drawOrder (newSkeleton Demo.idle_data)) (rendererObjects w)) /\
  (let paused := view_of (pause Demo.posed_view) in
   exists w img,
     tick 16 paused = Return tt w /\ state w = state paused /\
     rendererObjects w !! 0%nat = Some img /\
     Style.visible (style img) = true /\
     Style.x (style img) == 80 /\ Style.y (style img) == 20 /\
     (Style.visible ∘ style <$> rendererObjects w !! 1%nat) = Some false).
Proof.
  split.
  - set (st := record_call (SetAnimationByName 0 "jump" false) Demo.idle_state).
    set (sk := newSkeleton Demo.idle_data).
    assert (H1 : _isPlaying Demo.jump_once_view = true) by run.
    assert (H2 : visible Demo.jump_once_view = true) by run.
    assert (H3 : state Demo.jump_once_view = Some st) by run.
    assert (H4 : skeleton Demo.jump_once_view = Some sk) by run.
    destruct (proj1 (tick_advances_when_playing_and_visible 100 Demo.jump_once_view)
                st sk H1 H2 H3 H4) as (_ & _ & (st2 & cs & Hst & _ & _ & Htime) & _ & Hdraw).
    exists st2. split; [exact Hst|].
    assert (H5 : frameRate Demo.jump_once_view = Some 30) by run.
    assert (H6 : ~ 30 == 0) by discriminate.
    destruct (Htime 30 H5 H6) as [_ Ht].
    split; [rewrite Ht; run|]. split; [run|]. split; [run|].
    specialize (Hdraw (view_of (advance 100 Demo.jump_once_view))).
    match type of Hdraw with
    | ?P -> ?Q -> _ =>
        assert (H7 : P) by run;
        assert (H8 : Q) by (apply pool_okb_ok; run)
    end.
    destruct (Hdraw H7 H8) as (w & Hw & _ & _ & _ & Hsh & _).
    exists w. split; [exact Hw|exact Hsh].
  - intros paused.
    assert (H1 : _isPlaying paused && visible paused = false) by run.
    assert (H2 : skeleton paused = Some Demo.posed_skeleton) by run.
    assert (H3 : pool_ok (drawOrder Demo.posed_skeleton) (rendererObjects paused))
      by (apply pool_okb_ok; run).
    destruct (proj2 (tick_advances_when_playing_and_visible 16 paused) H1)
      as (_ & _ & Hdraw).
    destruct (Hdraw Demo.posed_skeleton H2 H3) as (w & Hw & _ & Hst & _ & _ & Hsh & Hdr).
    assert (H4 : shows (drawOrder Demo.posed_skeleton) 0 Demo.head_slot Demo.head)
      by (split; reflexivity).
    assert (H5 : last_on (drawOrder Demo.posed_skeleton) 0
                   (RegionAttachment.rendererObject Demo.head))
      by (apply last_onb_ok; run).
    destruct (Hdr 0%nat Demo.head_slot Demo.head H4 H5) as (img & Himg & Hstyle).
    exists w, img. split; [exact Hw|]. split; [exact Hst|]. split; [exact Himg|].
    rewrite Hstyle. split; [reflexivity|]. split; [run|]. split; [run|].
    assert (Hw' : w = view_of (tick 16 paused)) by (rewrite Hw; reflexivity).
    rewrite Hw'. run.
Defined.

Lemma playback_invariant_preserved_witness :
  let ops := [StartAnimation "jump" (Some Demo.jump_twice); Complete 0 0; Pause;
              Resume; Tick 16; Complete 0 0; StartAnimation "nowhere" None;
              ResetAllAnimations None; StopAnimation] in
  coherent Demo.idle_view /\
  coherent (run_all ops Demo.idle_view) /\ at_most_one (run_all ops Demo.idle_view).
Proof.
  intros ops.
  assert (H : coherent Demo.idle_view) by (intros _; run).
  split; [exact H|]. exact (playback_invariant_preserved ops Demo.idle_view H).
Defined.

Lemma resetAllAnimations_playback_witness :
  let v := Demo.blank (Demo.opts_with (Some "idle") (Some true) (Some true)) true in
  exists v',
    init v = Return tt v' /\
    DefaultLoop v' /\ visible v' = true /\ _isPlaying v' = true /\
    (state v' ≫= armed) = Some ("idle", true).
Proof.
  intros v.
  assert (H1 : resolveJson (merge (default no_opts None) (_opts v)) v =
               Return (Some Demo.doc) v) by run.
  assert (H2 : forall d, defaultAnimation (merge (default no_opts None) (_opts v)) = Some d ->
                         truthy d = true -> findAnimation d (readAnimations Demo.doc) <> None).
  { intros d Hd _. vm_compute in Hd. injection Hd as <-. vm_compute. discriminate. }
  destruct (resetAllAnimations_playback None v Demo.doc H1 H2)
    as (v' & Hr & _ & _ & _ & _ & _ & H).
  exists v'. split; [exact Hr|]. apply H; run.
Defined.

Lemma resetAllAnimations_keeps_stored_options_witness :
  let v := Demo.blank (Demo.opts_with None None None) true in
  let newOpts := Some (Demo.opts_with (Some "idle") None (Some true)) in
  let v' := view_of (resetAllAnimations newOpts v) in
  (state v' ≫= armed) = Some ("idle", true) /\
  _opts v' = _opts v /\
  exists v'', resetAnimation v' = Return tt v'' /\ Stopped v''.
Proof.
  intros v newOpts v'.
  assert (H1 : resetAllAnimations newOpts v = Return tt v') by run.
  assert (H2 : js_truthy (defaultAnimation (_opts v)) = false) by run.
  destruct (resetAllAnimations_keeps_stored_options newOpts v v' H1)
    as (Ho & _ & Hstop & _).
  split; [run|]. split; [exact Ho|]. exact (Hstop H2).
Defined.

(** ** The further properties at work *)

Lemma failed_calls_change_nothing_witness :
  run (StartAnimation "nowhere" None) Demo.idle_view =
    Throw (AnimationNotFound "nowhere") Demo.idle_view /\
  findAnimation "nowhere" (animations (st_data Demo.idle_state)) = None.
Proof.
  assert (H : run (StartAnimation "nowhere" None) Demo.idle_view =
              Throw (AnimationNotFound "nowhere") Demo.idle_view) by run.
  pose proof (failed_calls_change_nothing _ _ _ _ H) as (_ & Hc).
  assert (Hst : state Demo.idle_view = Some Demo.idle_state) by run.
  rewrite Hst in Hc. split; [exact H|exact (proj2 Hc)].
Defined.

Lemma resetAllAnimations_unknown_default_witness :
  let v := view_of (startAnimation "jump" (Some Demo.jump_twice) Demo.idle_view) in
  let newOpts := Some (Demo.opts_with (Some "walk") None None) in
  exists w st,
    resetAllAnimations newOpts v = Throw (AnimationNotFound "walk") w /\
    _currentAnimationOpts w = _currentAnimationOpts v /\
    state w = Some st /\ handlers st = false.
Proof.
  intros v newOpts.
  assert (H1 : resolveJson (merge (default no_opts newOpts) (_opts v)) v =
               Return (Some Demo.doc) v) by run.
  assert (H2 : defaultAnimation (merge (default no_opts newOpts) (_opts v)) = Some "walk")
    by run.
  assert (H3 : truthy "walk" = true) by run.
  assert (H4 : findAnimation "walk" (readAnimations Demo.doc) = None) by run.
  destruct (resetAllAnimations_unknown_default newOpts v Demo.doc "walk" H1 H2 H3 H4)
    as (w & st & Hr & Hc & Hst & _ & Hh & _).
  exists w, st. split; [exact Hr|]. split; [|split; [exact Hst|exact Hh]].
  destruct Hc as (_ & _ & _ & _ & Hcur & _). exact Hcur.
Defined.

Lemma resetAllAnimations_without_source_witness :
  (let v := Demo.blank no_opts true in
   resetAllAnimations None v = Throw SyntaxError v) /\
  resetAllAnimations None Quiet.blank = Return tt Quiet.blank.
Proof.
  split.
  - intros v.
    assert (H1 : js_truthy (spineData (merge (default no_opts None) (_opts v))) = false)
      by run.
    apply (proj1 (resetAllAnimations_without_source None v H1)); run.
  - assert (H1 : js_truthy (spineData (merge (default no_opts None) (_opts Quiet.blank)))
                 = false) by run.
    apply (proj2 (resetAllAnimations_without_source None Quiet.blank H1) "null").
    right. split; run.
Defined.

Lemma looping_request_ignores_completions_witness :
  let o := StartOpts.mk (Some 2%Z) (Some 7%nat) None (Some true) in
  exists v0,
    startAnimation "jump" (Some o) Demo.idle_view = Return tt v0 /\
    completions 5 v0 = v0 /\ fired (completions 5 v0) = [].
Proof.
  intros o.
  assert (H1 : state Demo.idle_view = Some Demo.idle_state) by run.
  assert (H2 : findAnimation "jump" (animations (st_data Demo.idle_state)) = Some Demo.jump)
    by run.
  assert (H3 : js_truthy (StartOpts.loop o) = true) by run.
  destruct (looping_request_ignores_completions Demo.idle_view Demo.idle_state "jump"
              Demo.jump o H1 H2 H3) as (v0 & Hs & _ & _ & Hall & Hf).
  exists v0. split; [exact Hs|]. split; [exact (Hall 5%nat)|].
  etransitivity; [exact (Hf 5%nat)|run].
Defined.

Lemma request_of_one_cycle_or_less_witness :
  (let opts := Some (StartOpts.mk (Some 0%Z) (Some 9%nat) None None) in
   exists v0 r,
     startAnimation "jump" opts Demo.idle_view = Return tt v0 /\
     _currentAnimationOpts v0 = Some r /\ Request.iterations r = 1%Z /\
     fired (view_of (onComplete 0 0 v0)) = [Completed 9%nat] /\
     _currentAnimationOpts (view_of (onComplete 0 0 v0)) = None) /\
  (exists v0 r,
     startAnimation "jump" (Some Demo.jump_once) Demo.walk_view = Return tt v0 /\
     _currentAnimationOpts v0 = Some r /\
     onComplete 0 0 v0 = Throw (AnimationNotFound "idle") (view_of (onComplete 0 0 v0)) /\
     fired (view_of (onComplete 0 0 v0)) = [Completed 7%nat] /\
     (Request.iterations <$> _currentAnimationOpts (view_of (onComplete 0 0 v0))) =
       Some 0%Z).
Proof.
  split.
  - intros opts.
    assert (H1 : state Demo.idle_view = Some Demo.idle_state) by run.
    assert (H2 : findAnimation "jump" (animations (st_data Demo.idle_state)) = Some Demo.jump)
      by run.
    assert (H3 : match opts with
                 | Some o => js_truthy (StartOpts.loop o)
                 | None => false
                 end = false) by run.
    assert (H4 : forall d, defaultAnimation (_opts Demo.idle_view) = Some d ->
                           truthy d = true ->
                           findAnimation d (animations (st_data Demo.idle_state)) <> None).
    { intros d Hd _. vm_compute in Hd. injection Hd as <-. vm_compute. discriminate. }
    destruct (request_of_one_cycle_or_less Demo.idle_view Demo.idle_state "jump" Demo.jump
                opts H1 H2 H3) as (v0 & r & Hs & Hc & Hone & Hlast).
    assert (Hr : Request.iterations r = 1%Z) by (apply Hone; right; run).
    exists v0, r. split; [exact Hs|]. split; [exact Hc|]. split; [exact Hr|].
    assert (Hle : (Request.iterations r <= 1)%Z) by (rewrite Hr; lia).
    destruct (Hlast Hle) as (Hf & Hok & _).
    split; [etransitivity; [exact Hf|run]|]. exact (proj1 (proj2 (Hok H4))).
  - set (st := default Demo.idle_state (state Demo.walk_view)).
    assert (H1 : state Demo.walk_view = Some st) by run.
    assert (H2 : findAnimation "jump" (animations (st_data st)) = Some Demo.jump) by run.
    destruct (request_of_one_cycle_or_less Demo.walk_view st "jump" Demo.jump
                (Some Demo.jump_once) H1 H2 eq_refl) as (v0 & r & Hs & Hc & _ & Hlast).
    assert (Hr : r = Request.mk 1%Z (Some 7%nat) None false "jump").
    { assert (Hv0 : v0 = view_of (startAnimation "jump" (Some Demo.jump_once) Demo.walk_view))
        by (rewrite Hs; reflexivity).
      rewrite Hv0 in Hc. vm_compute in Hc. injection Hc as <-. reflexivity. }
    assert (Hle : (Request.iterations r <= 1)%Z) by (rewrite Hr; simpl; lia).
    destruct (Hlast Hle) as (Hf & _ & Hthrow).
    assert (H3 : defaultAnimation (_opts Demo.walk_view) = Some "idle") by run.
    assert (H4 : findAnimation "idle" (animations (st_data st)) = None) by run.
    destruct (Hthrow "idle" H3 eq_refl H4) as (Ht & Hcur & _).
    exists v0, r. split; [exact Hs|]. split; [exact Hc|]. split; [exact Ht|].
    split; [etransitivity; [exact Hf|run]|].
    rewrite Hcur, Hr. run.
Defined.

Lemma events_go_to_the_request_in_flight_witness :
  let opts := Some (StartOpts.mk None None (Some 5%nat) None) in
  (exists v0,
     startAnimation "jump" opts Demo.idle_view = Return tt v0 /\
     fired (view_of (onEvent 0 42%nat v0)) = [Event 5%nat 42%nat]) /\
  onEvent 0 42%nat Demo.idle_view = Return tt Demo.idle_view.
Proof.
  intros opts.
  destruct (events_go_to_the_request_in_flight Demo.idle_view 0 42%nat) as (Hstart & Hdef & _).
  assert (H1 : state Demo.idle_view = Some Demo.idle_state) by run.
  assert (H2 : findAnimation "jump" (animations (st_data Demo.idle_state)) = Some Demo.jump)
    by run.
  assert (H3 : _isOnDefault Demo.idle_view = true) by run.
  split; [|exact (Hdef H3)].
  destruct (Hstart Demo.idle_state "jump" Demo.jump opts H1 H2) as (v0 & Hs & He).
  exists v0. split; [exact Hs|]. rewrite He. run.
Defined.

Lemma stopAnimation_stops_witness :
  let v := view_of (startAnimation "jump" (Some Demo.jump_twice) Demo.bare_view) in
  exists w,
    stopAnimation v = Return tt w /\ Stopped w /\ fired w = [] /\
    resetAnimation v = Return tt w.
Proof.
  intros v.
  destruct (stopAnimation_stops v) as (w & Hs & Hst & _ & _ & Hf & _ & _ & Hr).
  exists w. split; [exact Hs|]. split; [exact Hst|]. split.
  - etransitivity; [exact Hf|run].
  - apply Hr. left. run.
Defined.

Lemma pause_ticks_resume_witness :
  let v := view_of (startAnimation "jump" (Some Demo.jump_twice) Demo.idle_view) in
  let w := run_all [Pause; Tick 16; Tick 16; Resume] v in
  _isPlaying v = true /\ same_control v w /\ state w = state v.
Proof.
  intros v w.
  assert (H : _isPlaying v = true) by run.
  destruct (pause_ticks_resume v [16; 16] H) as (_ & Hc & Hs & _).
  split; [exact H|]. split; [exact Hc|exact Hs].
Defined.

Lemma present_stops_at_missing_image_witness :
  let stray := {| bone := 0%nat;
                  attachment := Some (Region (RegionAttachment.mk "hat" 5 0 0 0 10 10)) |} in
  let sk := {| pose := [Demo.bone0]; drawOrder := [Demo.head_slot; stray] |} in
  let v := set_skeleton (Some sk) Demo.idle_view in
  exists w,
    _present v = Throw TypeError w /\
    (Style.visible ∘ style) <$> rendererObjects w = [true; false].
Proof.
  intros stray sk v.
  assert (H1 : skeleton v = Some sk) by run.
  assert (H2 : drawOrder sk = ([Demo.head_slot] ++ stray :: [])%list) by run.
  assert (H3 : pool_ok [Demo.head_slot] (rendererObjects v)) by (apply pool_okb_ok; run).
  assert (H4 : attachment stray =
               Some (Region (RegionAttachment.mk "hat" 5 0 0 0 10 10))) by run.
  assert (H5 : (length (rendererObjects v) <= 5)%nat) by (vm_compute; lia).
  destruct (present_stops_at_missing_image v sk [Demo.head_slot] [] stray _ H1 H2 H3 H4 H5)
    as (w & Hp & _).
  exists w. split; [exact Hp|].
  assert (Hw : Throw TypeError w = _present v :> Outcome unit) by (symmetry; exact Hp).
  replace w with (view_of (_present v)) by (rewrite Hp; reflexivity). run.
Defined.


Lemma getDuration_and_startAnimation_agree_witness :
  let v := Demo.blank (Demo.opts_with (Some "idle") None (Some true)) true in
  let w := run_all [ResetAllAnimations None; Pause] v in
  (exists w', startAnimation "jump" None w = Return tt w') /\
  startAnimation "nowhere" None w = Throw (AnimationNotFound "nowhere") w.
Proof.
  intros v w.
  assert (H1 : wellformed v) by (apply unbuilt_wellformed; run).
  split.
  - apply (proj1 (getDuration_and_startAnimation_agree
                    [ResetAllAnimations None; Pause] v "jump" None H1)).
    eexists. run.
  - apply (proj2 (getDuration_and_startAnimation_agree
                    [ResetAllAnimations None; Pause] v "nowhere" None H1)).
    run.
Defined.

Lemma present_finds_every_image_witness :
  let v := Demo.blank (Demo.opts_with (Some "idle") None (Some true)) true in
  let ops := [ResetAllAnimations None; StartAnimation "jump" None; Tick 16] in
  exists w', _present (run_all ops v) = Return tt w'.
Proof.
  intros v ops.
  assert (H1 : wellformed v) by (apply unbuilt_wellformed; run).
  assert (H2 : skeleton (run_all ops v) = Some (newSkeleton Demo.idle_data)) by run.
  assert (H3 : skeletonData (run_all ops v) = Some Demo.idle_data) by run.
  assert (H4 : forall s a, s ∈ drawOrder (newSkeleton Demo.idle_data) ->
                           attachment s = Some (Region a) ->
                           Region a ∈ attachments Demo.idle_data).
  { intros s a Hin Ha. simpl in Hin.
    repeat (apply elem_of_cons in Hin as [->|Hin];
            [simpl in Ha; try discriminate; injection Ha as <-;
             apply list_elem_of_In; simpl; auto|]).
    inversion Hin. }
  destruct (present_finds_every_image ops v _ _ H1 H2 H3 H4) as (_ & w' & Hp & _).
  exists w'. exact Hp.
Defined.

Lemma dropped_request_never_completes_witness :
  let v := view_of (startAnimation "jump" (Some Demo.jump_twice) Demo.idle_view) in
  let w := view_of (stopAnimation v) in
  let ops := [Resume; Complete 0 0; ResetAnimation; Tick 16; Complete 0 0] in
  exists extra,
    fired (run_all ops w) = (fired v ++ extra)%list /\ Completed 7%nat ∉ extra.
Proof.
  intros v w ops.
  assert (H1 : stopAnimation v = Return tt w \/ resetAnimation v = Return tt w)
    by (left; run).
  assert (H2 : forall op, op ∈ ops -> ~ starts_with 7%nat op).
  { intros op Hin (n & o & -> & _).
    repeat (apply elem_of_cons in Hin as [Hin|Hin]; [discriminate|]).
    inversion Hin. }
  exact (proj2 (dropped_request_never_completes v w 7%nat ops H1 H2)).
Defined.
